(** * A shallow embedding of [Tarea2/src/GeneticAlgorithm.py]

    The class [GeneticAlgorithm] is embedded as a record of its private
    fields together with one function per method.  Python exceptions are the
    [Raise] results of an error monad; the global NumPy random generator is
    an explicit stream of raw draws that every random call consumes.

    Scope of the model.
    - Fitness values are Python integers ([Z]); [np.sum] is the exact sum
      (fitness sums are taken to stay inside NumPy's 64-bit range).
    - Floats only ever meet a comparison in this file ([random() < 0.5],
      [random() < mutation_rate]); a float is a rational and float comparison
      is exact, so they are rationals ([Q]).  [np.average] is kept as the exact
      quotient, which NumPy rounds to the nearest double.
    - Caller-supplied callables are trusted not to raise; they may consume
      random draws.  [fitness_function] and [termination_condition] are pure.
    - [viable_crossover] is taken to return a fresh list, as the built-in
      crossover does, so item assignment on the child touches no parent.
    - The progress text printed when [silent] is false is not modelled. *)

From Stdlib Require Import String ZArith NArith QArith List Bool Lia.
From Stdlib Require Import Permutation.
Import ListNotations.
Local Open Scope Z_scope.

(** ** Exceptions and results *)

Inductive exn : Type :=
| ValueError
| TypeError
| IndexError
| NotImplementedError (msg : string).

Inductive outcome (A : Type) : Type :=
| Return (a : A)
| Raise (e : exn).

Arguments Return {A} a.
Arguments Raise {A} e.

Definition obind {A B : Type} (c : outcome A) (k : A -> outcome B) : outcome B :=
  match c with
  | Return a => k a
  | Raise e => Raise e
  end.

Notation "'let!' x ':=' c 'in' k" := (obind c (fun x => k))
  (at level 10, x name, c at level 100, k at level 200).

(** ** The random stream

    [tape] holds the raw draws of the generator and [cursor] counts how many
    were consumed.  The state survives an exception, as the global generator
    of NumPy does. *)

Record RandomState : Type := mkRandom { tape : nat -> N; cursor : nat }.

Definition advance (r : RandomState) : RandomState :=
  mkRandom (tape r) (S (cursor r)).

Definition raw (r : RandomState) : N := tape r (cursor r).

Definition M (A : Type) : Type := RandomState -> outcome A * RandomState.

(** A caller-supplied callable: total, may draw random numbers. *)
Definition Gen (A : Type) : Type := RandomState -> A * RandomState.

Definition ret {A : Type} (a : A) : M A := fun r => (Return a, r).

Definition raise {A : Type} (e : exn) : M A := fun r => (Raise e, r).

Definition bind {A B : Type} (c : M A) (k : A -> M B) : M B :=
  fun r =>
    match c r with
    | (Return a, r') => k a r'
    | (Raise e, r') => (Raise e, r')
    end.

Definition lift {A : Type} (c : outcome A) : M A := fun r => (c, r).

Definition call {A : Type} (f : Gen A) : M A :=
  fun r => let (a, r') := f r in (Return a, r').

Notation "x <- c ;; k" := (bind c (fun x => k))
  (at level 61, c at next level, right associativity).

(** [[c for _ in range(n)]] *)
Fixpoint replicateM {A : Type} (n : nat) (c : M A) : M (list A) :=
  match n with
  | O => ret []
  | S n' => x <- c ;; xs <- replicateM n' c ;; ret (x :: xs)
  end.

(** [np.random.randint(low, high)]: a draw in [[low, high)], [ValueError]
    when the range is empty. *)
Definition randint (low high : Z) : M Z :=
  fun r =>
    if low <? high
    then (Return (low + Z.of_N (raw r) mod (high - low)), advance r)
    else (Raise ValueError, r).

(** [np.random.randint(low, high, size)] *)
Definition randint_size (low high : Z) (size : nat) : M (list Z) :=
  if low <? high then replicateM size (randint low high) else raise ValueError.

Definition two53 : positive := 9007199254740992.

(** [np.random.random()]: a 53-bit fraction in [[0, 1)]. *)
Definition random : M Q :=
  fun r => (Return (Z.of_N (raw r mod Npos two53) # two53), advance r).

Definition Qltb (x y : Q) : bool :=
  (Qnum x * Zpos (Qden y) <? Qnum y * Zpos (Qden x)).

(** ** Python lists and NumPy reductions *)

(** [l[i]] for a Python int [i]: negative indices count from the end. *)
Definition py_getitem {A : Type} (l : list A) (i : Z) : outcome A :=
  let j := if i <? 0 then Z.of_nat (length l) + i else i in
  if j <? 0 then Raise IndexError
  else match nth_error l (Z.to_nat j) with
       | Some x => Return x
       | None => Raise IndexError
       end.

(** [l[i] = x] for [i] taken from [range(len(l))]. *)
Fixpoint py_setitem {A : Type} (l : list A) (i : nat) (x : A) : outcome (list A) :=
  match l, i with
  | [], _ => Raise IndexError
  | _ :: t, O => Return (x :: t)
  | h :: t, S i' => let! t' := py_setitem t i' x in Return (h :: t')
  end.

Definition np_sum (l : list Z) : Z := fold_left Z.add l 0.

Definition np_max (l : list Z) : outcome Z :=
  match l with
  | [] => Raise ValueError
  | x :: t => Return (fold_left Z.max t x)
  end.

Definition np_min (l : list Z) : outcome Z :=
  match l with
  | [] => Raise ValueError
  | x :: t => Return (fold_left Z.min t x)
  end.

(** First index of the maximum, scanning left to right. *)
Fixpoint argmax_from (l : list Z) (i : Z) (best_i best : Z) : Z :=
  match l with
  | [] => best_i
  | x :: t => if x >? best then argmax_from t (i + 1) i x
              else argmax_from t (i + 1) best_i best
  end.

Definition np_argmax (l : list Z) : outcome Z :=
  match l with
  | [] => Raise ValueError
  | x :: t => Return (argmax_from t 1 0 x)
  end.

Definition np_average (l : list Z) : Q :=
  np_sum l # Pos.of_nat (length l).

(** ** The engine *)

(** An individual is a Python list of genes. *)
Abbreviation Individual := list (only parsing).

Section GeneticAlgorithm.

Context {G : Type}.

(** The arguments of [__init__].  An optional callable left at its default
    is [None]. *)
Record Config : Type := mkConfig {
  pop_size : Z;
  mutation_rate : Q;
  fitness_function : Individual G -> Z;
  individual_factory : Gen (Individual G);
  gene_factory : Gen G;
  mutate : G -> Gen G;
  termination_condition : Z -> bool;
  max_iter : Z;
  individual_viability_check : bool;
  individual_viability_condition : option (Individual G -> bool);
  viable_mutation : option (Individual G -> nat -> Gen G);
  viable_crossover : option (Individual G -> Individual G -> Gen (Individual G));
  viable_individual_factory : option (Gen (Individual G))
}.

(** A [GeneticAlgorithm] object: [__init__] stores every argument unchanged
    in a private field of the same name, next to the two fields the engine
    updates. *)
Record Engine : Type := mkEngine {
  config :> Config;
  population : list (Individual G);
  population_fitness : list Z
}.

Definition set_population (e : Engine) (p : list (Individual G)) : Engine :=
  mkEngine (config e) p (population_fitness e).

Definition set_population_fitness (e : Engine) (f : list Z) : Engine :=
  mkEngine (config e) (population e) f.

(** The four [is None] tests of [__init__], in source order. *)
Definition check_viability_bundle (c : Config) : outcome unit :=
  match individual_viability_condition c with
  | None => Raise (NotImplementedError "individual_viability_condition")
  | Some _ =>
  match viable_mutation c with
  | None => Raise (NotImplementedError "viable_mutation")
  | Some _ =>
  match viable_crossover c with
  | None => Raise (NotImplementedError "viable_crossover")
  | Some _ =>
  match viable_individual_factory c with
  | None => Raise (NotImplementedError "viable_individual_factory")
  | Some _ => Return tt
  end end end end.

(** Calling an attribute that holds [None] is a [TypeError]. *)
Definition call_optional {A : Type} (f : option (Gen A)) : M A :=
  match f with
  | Some g => call g
  | None => raise TypeError
  end.

(** [GeneticAlgorithm.__init__] *)
Definition init (c : Config) : M Engine :=
  _ <- lift (if individual_viability_check c
             then check_viability_bundle c
             else Return tt) ;;
  population <- (if individual_viability_check c
                 then replicateM (Z.to_nat (pop_size c))
                        (call_optional (viable_individual_factory c))
                 else replicateM (Z.to_nat (pop_size c))
                        (call (individual_factory c))) ;;
  ret (mkEngine c population []).

(** [getPopulation] *)
Definition getPopulation (e : Engine) : list (Individual G) := population e.

(** [__evaluate] *)
Definition evaluate (e : Engine) : Engine :=
  set_population_fitness e (map (fitness_function e) (population e)).

Definition is_None {A : Type} (o : option A) : bool :=
  match o with
  | None => true
  | Some _ => false
  end.

(** The roulette walk: the body of [for index, individual in
    enumerate(self.__population)], from position [index] on, with the running
    [total] and the two parent slots. *)
Fixpoint roulette_walk (fitness : list Z) (parent_1_fitness parent_2_fitness : Z)
    (rest : list (Individual G)) (index : Z) (total : Z)
    (parent_1 parent_2 : option (Individual G))
    : outcome (option (Individual G) * option (Individual G)) :=
  match rest with
  | [] => Return (parent_1, parent_2)
  | individual :: rest' =>
      let! f := py_getitem fitness index in
      let total := total + Z.abs f in
      let parent_1 := if total >=? parent_1_fitness then Some individual else parent_1 in
      let parent_2 := if total >=? parent_2_fitness then Some individual else parent_2 in
      if negb (is_None parent_1 || is_None parent_2)
      then Return (parent_1, parent_2)
      else roulette_walk fitness parent_1_fitness parent_2_fitness
             rest' (index + 1) total parent_1 parent_2
  end.

(** The roulette branch of [__produce_offspring]. *)
Definition roulette (e : Engine) (total_fitness : Z)
    : M (option (Individual G) * option (Individual G)) :=
  targets <- randint_size 0 total_fitness 2 ;;
  match targets with
  | [parent_1_fitness; parent_2_fitness] =>
      lift (roulette_walk (population_fitness e) parent_1_fitness
              parent_2_fitness (population e) 0 0 None None)
  | _ => raise ValueError
  end.

(** One iteration of [for participant in participants]. *)
Definition tournament_step (fitness : list Z) (slots : option Z * option Z)
    (participant : Z) : outcome (option Z * option Z) :=
  let (max_1, max_2) := slots in
  match max_1 with
  | None => Return (Some participant, max_2)
  | Some m1 =>
      let! fp := py_getitem fitness participant in
      let! f1 := py_getitem fitness m1 in
      if fp >? f1 then Return (Some participant, Some m1)
      else match max_2 with
           | None => Return (Some m1, Some participant)
           | Some m2 =>
               let! f2 := py_getitem fitness m2 in
               if fp >? f2 then Return (Some m1, Some participant)
               else Return (Some m1, Some m2)
           end
  end.

Fixpoint tournament_scan (fitness : list Z) (participants : list Z)
    (slots : option Z * option Z) : outcome (option Z * option Z) :=
  match participants with
  | [] => Return slots
  | participant :: rest =>
      let! slots' := tournament_step fitness slots participant in
      tournament_scan fitness rest slots'
  end.

(** [self.__population[max_i]]: indexing a list with [None] is a [TypeError]. *)
Definition population_at (pop : list (Individual G)) (max_i : option Z)
    : outcome (Individual G) :=
  match max_i with
  | None => Raise TypeError
  | Some i => py_getitem pop i
  end.

(** Parents chosen from the drawn [participants]. *)
Definition tournament_parents (e : Engine) (participants : list Z)
    : outcome (option (Individual G) * option (Individual G)) :=
  let! slots := tournament_scan (population_fitness e) participants (None, None) in
  let! parent_1 := population_at (population e) (fst slots) in
  let! parent_2 := population_at (population e) (snd slots) in
  Return (Some parent_1, Some parent_2).

(** The tournament branch of [__produce_offspring]. *)
Definition tournament (e : Engine) : M (option (Individual G) * option (Individual G)) :=
  participants <- randint_size 0 (pop_size e) 8 ;;
  lift (tournament_parents e participants).

(** Parent selection: [mode == 0 and self.__population_fitness[0] >= 0]
    short-circuits, so the fitness is only read for mode 0. *)
Definition select_parents (e : Engine) (total_fitness : Z) (mode : Z)
    : M (option (Individual G) * option (Individual G)) :=
  if mode =? 0
  then f0 <- lift (py_getitem (population_fitness e) 0) ;;
       if f0 >=? 0 then roulette e total_fitness else tournament e
  else tournament e.

(** The bound of a Python slice: a negative bound counts from the end, and
    every bound is clipped to the list. *)
Definition slice_bound {A : Type} (l : list A) (i : Z) : nat :=
  let len := Z.of_nat (length l) in
  Z.to_nat (Z.min len (if i <? 0 then Z.max 0 (len + i) else i)).

(** [l[:i]] and [l[i:]] *)
Definition py_prefix {A : Type} (l : list A) (i : Z) : list A :=
  firstn (slice_bound l i) l.

Definition py_suffix {A : Type} (l : list A) (i : Z) : list A :=
  skipn (slice_bound l i) l.

(** The built-in single-point crossover ([len(None)] and [None[i:]] are
    [TypeError]s). *)
Definition breakpoint_crossover (parent_1 parent_2 : option (Individual G))
    : M (Individual G) :=
  match parent_1 with
  | None => raise TypeError
  | Some p1 =>
      gen_breakpoint_index <- randint 1 (Z.of_nat (length p1) - 1) ;;
      u <- random ;;
      match parent_2 with
      | None => raise TypeError
      | Some p2 =>
          if Qltb u (1 # 2)
          then ret (py_prefix p1 gen_breakpoint_index ++ py_suffix p2 gen_breakpoint_index)
          else ret (py_prefix p2 gen_breakpoint_index ++ py_suffix p1 gen_breakpoint_index)
      end
  end.

(** The crossover stage of [__produce_offspring].  A caller's crossover
    handed [None] is taken to raise [TypeError]. *)
Definition crossover (e : Engine) (parent_1 parent_2 : option (Individual G))
    : M (Individual G) :=
  if individual_viability_check e
  then match viable_crossover e, parent_1, parent_2 with
       | Some f, Some p1, Some p2 => call (f p1 p2)
       | _, _, _ => raise TypeError
       end
  else breakpoint_crossover parent_1 parent_2.

(** The replacement of gene [i]: [child[i] = self.__viable_mutation(child, i)]
    or [child[i] = self.__mutate(child[i])]. *)
Definition mutate_gene_at (e : Engine) (child : Individual G) (i : nat)
    : M (Individual G) :=
  if individual_viability_check e
  then match viable_mutation e with
       | None => raise TypeError
       | Some f => g <- call (f child i) ;; lift (py_setitem child i g)
       end
  else old <- lift (py_getitem child (Z.of_nat i)) ;;
       g <- call (mutate e old) ;;
       lift (py_setitem child i g).

(** [for i in range(len(child))], from position [i] on, [n] positions left. *)
Fixpoint mutation_loop (e : Engine) (n : nat) (i : nat) (child : Individual G)
    : M (Individual G) :=
  match n with
  | O => ret child
  | S n' =>
      u <- random ;;
      child' <- (if Qltb u (mutation_rate e)
                 then mutate_gene_at e child i
                 else ret child) ;;
      mutation_loop e n' (S i) child'
  end.

Definition mutation (e : Engine) (child : Individual G) : M (Individual G) :=
  mutation_loop e (length child) 0 child.

(** [__produce_offspring] *)
Definition produce_offspring (e : Engine) (total_fitness : Z) (mode : Z)
    : M (Individual G) :=
  parents <- select_parents e total_fitness mode ;;
  child <- crossover e (fst parents) (snd parents) ;;
  mutation e child.

(** [__reproduce]: every offspring is produced from the old population,
    which is replaced only at the end; the mode is left at its default 0. *)
Definition reproduce (e : Engine) : M Engine :=
  let total_fitness := np_sum (population_fitness e) in
  new_population <- replicateM (Z.to_nat (pop_size e))
                      (produce_offspring e total_fitness 0) ;;
  ret (set_population e new_population).

(** The dictionary returned by [simulate]. *)
Record RunResult : Type := mkRunResult {
  best_individual_data : list Z;
  worst_individual_data : list Z;
  generation_average_data : list Q;
  historic_best_individual : list (Individual G)
}.

Definition empty_result : RunResult := mkRunResult [] [] [] [].

(** The four values recorded for a generation. *)
Record Metrics : Type := mkMetrics {
  actual_best_individual_fitness : Z;
  actual_worst_individual_fitness : Z;
  actual_average_individual_fitness : Q;
  actual_best_individual : Individual G
}.

Definition metrics (e : Engine) : outcome Metrics :=
  let! best := np_max (population_fitness e) in
  let! worst := np_min (population_fitness e) in
  let average := np_average (population_fitness e) in
  let! best_index := np_argmax (population_fitness e) in
  let! best_individual := py_getitem (population e) best_index in
  Return (mkMetrics best worst average best_individual).

Definition record_metrics (acc : RunResult) (m : Metrics) : RunResult :=
  mkRunResult
    (best_individual_data acc ++ [actual_best_individual_fitness m])
    (worst_individual_data acc ++ [actual_worst_individual_fitness m])
    (generation_average_data acc ++ [actual_average_individual_fitness m])
    (historic_best_individual acc ++ [actual_best_individual m]).

(** [True in map(self.__termination_condition, self.__population_fitness)] *)
Definition termination_met (e : Engine) : bool :=
  existsb (termination_condition e) (population_fitness e).

(** The loop of [simulate] with [iterations] generations left to run. *)
Fixpoint simulate_loop (iterations : nat) (e : Engine) (acc : RunResult)
    : M (RunResult * Engine) :=
  match iterations with
  | O => ret (acc, e)
  | S iterations' =>
      let e1 := evaluate e in
      m <- lift (metrics e1) ;;
      let acc' := record_metrics acc m in
      if termination_met e1 then ret (acc', e1)
      else e2 <- reproduce e1 ;; simulate_loop iterations' e2 acc'
  end.

(** [simulate]: [range(1, max_iter + 1)] has [max_iter] elements (none when
    [max_iter] is not positive).  The engine is returned next to the
    dictionary because the method updates the object in place. *)
Definition simulate (e : Engine) (silent : bool) : M (RunResult * Engine) :=
  simulate_loop (Z.to_nat (max_iter e)) e empty_result.

End GeneticAlgorithm.

Arguments Config G : clear implicits.
Arguments Engine G : clear implicits.
Arguments RunResult G : clear implicits.
Arguments Metrics G : clear implicits.

(** ** Vocabulary of the statements *)

Section Vocabulary.

Context {G : Type}.

(** [n] draws consumed. *)
Definition skip (n : nat) (r : RandomState) : RandomState :=
  mkRandom (tape r) (n + cursor r).

(** The engine as it enters generation [n + 1]: [n] rounds of the body of
    the loop of [simulate], evaluation then reproduction. *)
Fixpoint generations (n : nat) (e : Engine G) : M (Engine G) :=
  match n with
  | O => ret e
  | S n' => e' <- reproduce (evaluate e) ;; generations n' e'
  end.

(** The factory [__init__] builds the population with. *)
Definition appropriate_factory (c : Config G) : M (Individual G) :=
  if individual_viability_check c
  then call_optional (viable_individual_factory c)
  else call (individual_factory c).

(** Exactly [pop_size] individuals, each of [len] genes. *)
Definition population_ok (c : Config G) (len : nat) (pop : list (Individual G))
    : Prop :=
  Z.of_nat (length pop) = pop_size c /\ Forall (fun ind => length ind = len) pop.

(** The length contracts of the caller's callables: the factory in use
    returns [len] genes, and the caller's crossover returns [len] genes from
    parents of [len] genes. *)
Definition length_contracts (c : Config G) (len : nat) : Prop :=
  (individual_viability_check c = false ->
   forall r, length (fst (individual_factory c r)) = len) /\
  (forall f, viable_individual_factory c = Some f ->
             forall r, length (fst (f r)) = len) /\
  (forall f, viable_crossover c = Some f ->
             forall p1 p2 r, length p1 = len -> length p2 = len ->
                             length (fst (f p1 p2 r)) = len).

(** [name] is the name of a capability of the viability bundle that was
    left out. *)
Definition missing_capability (c : Config G) (name : string) : Prop :=
  (name = "individual_viability_condition"%string /\
   individual_viability_condition c = None) \/
  (name = "viable_mutation"%string /\ viable_mutation c = None) \/
  (name = "viable_crossover"%string /\ viable_crossover c = None) \/
  (name = "viable_individual_factory"%string /\
   viable_individual_factory c = None).

(** Each of the four series of the result holds [k] entries. *)
Definition generations_recorded (res : RunResult G) (k : nat) : Prop :=
  length (best_individual_data res) = k /\
  length (worst_individual_data res) = k /\
  length (generation_average_data res) = k /\
  length (historic_best_individual res) = k.

(** A slot that is unset or holds an individual with property [P]. *)
Definition slot_has (P : Individual G -> Prop) (slot : option (Individual G))
    : Prop :=
  match slot with
  | None => True
  | Some x => P x
  end.

(** Following the spec's words: the first individual, in population order,
    whose cumulative sum of absolute fitness reaches or exceeds [target]. *)
Fixpoint first_reaching (fitness : list Z) (pop : list (Individual G))
    (total target : Z) {struct pop} : option (Individual G) :=
  match pop, fitness with
  | individual :: pop', f :: fitness' =>
      if total + Z.abs f >=? target then Some individual
      else first_reaching fitness' pop' (total + Z.abs f) target
  | _, _ => None
  end.

(** An offspring whose parents are handed over by [selection]: crossover,
    then mutation. *)
Definition offspring_from (e : Engine G)
    (selection : M (option (Individual G) * option (Individual G)))
    : M (Individual G) :=
  parents <- selection ;;
  child <- crossover e (fst parents) (snd parents) ;;
  mutation e child.





(** A tournament slot that is unset or holds an index of the population. *)
Definition slot_ok (len : nat) (slot : option Z) : Prop :=
  match slot with
  | None => True
  | Some i => 0 <= i < Z.of_nat len
  end.

(** Index [m] holds the strictly largest fitness of the vector. *)
Definition unique_maximum (fitness : list Z) (m : Z) : Prop :=
  0 <= m < Z.of_nat (length fitness) /\
  forall i, 0 <= i < Z.of_nat (length fitness) -> i <> m ->
            nth (Z.to_nat i) fitness 0 < nth (Z.to_nat m) fitness 0.

End Vocabulary.

(** ** Concrete engines the statements are run on *)

Module Examples.

(** The stream whose [n]-th raw draw is the [n]-th element of [l]. *)
Definition tape_of (l : list N) : RandomState :=
  mkRandom (fun n => nth n l 0%N) 0.

Definition sum_genes (ind : list Z) : Z := fold_left Z.add ind 0.

(** A gene from 1 to 5. *)
Definition gene_1_5 : Gen Z :=
  fun r => (1 + Z.of_N (raw r) mod 5, advance r).

Fixpoint genes (n : nat) : Gen (list Z) :=
  fun r =>
    match n with
    | O => ([], r)
    | S n' => let (g, r1) := gene_1_5 r in
              let (gs, r2) := genes n' r1 in (g :: gs, r2)
    end.

Definition next_gene (g : Z) : Gen Z := fun r => (g + 1, r).

(** Three genes from 1 to 5, fitness the sum of the genes, every mutation
    adds one to the gene; no viability bundle. *)
Definition plain (pop_size : Z) (mutation_rate : Q) (goal : Z) (max_iter : Z)
    : Config Z :=
  mkConfig pop_size mutation_rate sum_genes (genes 3) gene_1_5 next_gene
    (fun v => v >=? goal) max_iter false None None None None.

(** The same problem with the viability bundle: the crossover copies the
    first parent and the mutation adds two to the gene. *)
Definition viable (pop_size : Z) (mutation_rate : Q) (goal : Z) (max_iter : Z)
    : Config Z :=
  mkConfig pop_size mutation_rate sum_genes (genes 3) gene_1_5 next_gene
    (fun v => v >=? goal) max_iter true
    (Some (fun _ => true))
    (Some (fun child i r => (nth i child 0 + 2, r)))
    (Some (fun p1 _ r => (p1, r)))
    (Some (genes 3)).

(** The viability check switched on with [viable_mutation] left out. *)
Definition incomplete : Config Z :=
  mkConfig 2 0 sum_genes (genes 3) gene_1_5 next_gene
    (fun v => v >=? 20) 5 true
    (Some (fun _ => true)) None (Some (fun p1 _ r => (p1, r))) (Some (genes 3)).

(** An engine with a given population, already evaluated. *)
Definition evaluated (c : Config Z) (pop : list (list Z)) : Engine Z :=
  mkEngine c pop (map (fitness_function c) pop).

(** A run of two individuals that meets its goal, a fitness of 12, in the
    third generation. *)
Definition start : Engine Z :=
  mkEngine (plain 2 1 12 5) [[1; 2; 3]; [4; 5; 1]] [].

Definition start_tape : RandomState :=
  tape_of [1; 20; 0; 0; 0; 0; 0; 3; 4; 1]%N.


(** Fitness vector [2; 3], total 5. *)
Definition pair : Engine Z :=
  evaluated (plain 2 0 20 3) [[1; 1; 0]; [1; 1; 1]].

(** Fitness vector [2; 3; 15]: index 2 is the only maximum. *)
Definition trio : Engine Z :=
  evaluated (plain 3 0 20 3) [[1; 1; 0]; [1; 1; 1]; [5; 5; 5]].

(** Fitness vector [0; 0]. *)
Definition flat : Engine Z :=
  evaluated (plain 2 0 20 3) [[0; 0; 0]; [0; 0; 0]].

(** Fitness vector [0; -1]. *)
Definition sunk : Engine Z :=
  evaluated (plain 2 0 20 3) [[2; -1; -1]; [-3; 1; 1]].

(** The run of [start] with a goal out of reach and two generations at
    most, and the engine it ends with. *)
Definition far : Engine Z :=
  mkEngine (plain 2 1 100 2) [[1; 2; 3]; [4; 5; 1]] [].

Definition far_end : Engine Z :=
  mkEngine (plain 2 1 100 2) [[3; 4; 5]; [3; 4; 5]] [9; 9].

(** Three evaluated individuals under a [pop_size] of 2. *)
Definition crowd : Engine Z :=
  evaluated (plain 2 1 12 5) [[1; 2; 3]; [4; 5; 1]; [2; 2; 2]].


(** An engine with a mutation rate of one half. *)
Definition half : Engine Z :=
  mkEngine (plain 2 (1 # 2) 100 2) [] [].

End Examples.

(** ** Vocabulary of the further properties *)

Section FurtherVocabulary.

Context {G : Type}.

(** A Python integer that NumPy holds in an [int64] without loss. *)
Definition int64_range (z : Z) : Prop :=
  - 9223372036854775808 <= z < 9223372036854775808.

(** The series of a result agree with one another, generation by
    generation: the recorded best individual has the recorded best fitness,
    and the recorded worst fitness is not above it. *)
Definition records_consistent (fit : Individual G -> Z) (res : RunResult G)
    : Prop :=
  Forall2 (fun ind best => fit ind = best)
    (historic_best_individual res) (best_individual_data res) /\
  Forall2 Z.le (worst_individual_data res) (best_individual_data res).

End FurtherVocabulary.

Section UnusedFields.

Context {G : Type}.

(** The engine [e] with other values in the two fields that [__init__]
    stores and no method reads again: [gene_factory] and
    [individual_viability_condition]. *)
Definition with_unused (e : Engine G) (gf : Gen G)
    (cond : option (Individual G -> bool)) : Engine G :=
  mkEngine
    (mkConfig (pop_size e) (mutation_rate e) (fitness_function e)
       (individual_factory e) gf (mutate e) (termination_condition e)
       (max_iter e) (individual_viability_check e) cond (viable_mutation e)
       (viable_crossover e) (viable_individual_factory e))
    (population e) (population_fitness e).

End UnusedFields.

(** * Properties *)

(** ** The monad, the random stream and Python lists *)

Lemma bind_Return {A B : Type} (c : M A) (k : A -> M B) r a r' :
  c r = (Return a, r') -> bind c k r = k a r'.
Proof. intros H. unfold bind. now rewrite H. Qed.

Lemma bind_Raise {A B : Type} (c : M A) (k : A -> M B) r x r' :
  c r = (Raise x, r') -> bind c k r = (Raise x, r').
Proof. intros H. unfold bind. now rewrite H. Qed.

Lemma bind_inv {A B : Type} (c : M A) (k : A -> M B) r b r2 :
  bind c k r = (Return b, r2) ->
  exists a r1, c r = (Return a, r1) /\ k a r1 = (Return b, r2).
Proof.
  unfold bind. destruct (c r) as [[a | x] r1]; intros H.
  - now exists a, r1.
  - discriminate.
Qed.

Lemma replicateM_inv {A : Type} (P : A -> Prop) (c : M A) :
  (forall r a r', c r = (Return a, r') -> P a) ->
  forall n r xs r', replicateM n c r = (Return xs, r') ->
                    length xs = n /\ Forall P xs.
Proof.
  intros Hc. induction n as [| n IH]; intros r xs r' H; simpl in H.
  - inversion H. now split.
  - apply bind_inv in H as (a & r1 & Ha & H).
    apply bind_inv in H as (ys & r2 & Hys & H).
    inversion H; subst. destruct (IH _ _ _ Hys) as [Hlen Hall].
    split; [simpl; congruence | constructor; eauto].
Qed.

Lemma replicateM_total {A : Type} (P : A -> Prop) (c : M A) :
  (forall r, exists a r', c r = (Return a, r') /\ P a) ->
  forall n r, exists xs r', replicateM n c r = (Return xs, r') /\
                            length xs = n /\ Forall P xs.
Proof.
  intros Hc. induction n as [| n IH]; intros r; simpl.
  - exists [], r. now repeat split.
  - destruct (Hc r) as (a & r1 & Ha & HP).
    destruct (IH r1) as (xs & r2 & Hxs & Hlen & Hall).
    exists (a :: xs), r2. rewrite (bind_Return _ _ _ _ _ Ha).
    rewrite (bind_Return _ _ _ _ _ Hxs). unfold ret.
    repeat split; [simpl; congruence | now constructor].
Qed.

Lemma replicateM_Raise {A : Type} (c : M A) x :
  (forall r, c r = (Raise x, r)) ->
  forall n r, (0 < n)%nat -> replicateM n c r = (Raise x, r).
Proof.
  intros Hc [| n] r Hn; [lia |]. simpl. now apply bind_Raise.
Qed.

Lemma randint_range low high r v r' :
  randint low high r = (Return v, r') -> low <= v < high /\ r' = advance r.
Proof.
  unfold randint. destruct (Z.ltb_spec low high) as [Hlt | Hge]; intros H.
  - inversion H; subst. split; [| reflexivity].
    pose proof (Z.mod_pos_bound (Z.of_N (raw r)) (high - low)). lia.
  - discriminate.
Qed.

Lemma randint_total low high r :
  low < high ->
  exists v, randint low high r = (Return v, advance r) /\ low <= v < high.
Proof.
  intros Hlt. unfold randint. destruct (Z.ltb_spec low high); [| lia].
  eexists. split; [reflexivity |].
  pose proof (Z.mod_pos_bound (Z.of_N (raw r)) (high - low)). lia.
Qed.

(** Every value of the range is reached by some raw draw. *)
Lemma randint_onto low high v r :
  low <= v < high -> raw r = Z.to_N (v - low) ->
  randint low high r = (Return v, advance r).
Proof.
  intros Hv Hraw. unfold randint. destruct (Z.ltb_spec low high); [| lia].
  rewrite Hraw, Z2N.id by lia. rewrite Z.mod_small by lia.
  do 2 f_equal. lia.
Qed.

Lemma randint_size_inv low high n r xs r' :
  randint_size low high n r = (Return xs, r') ->
  length xs = n /\ Forall (fun v => low <= v < high) xs.
Proof.
  unfold randint_size. destruct (low <? high); [| discriminate].
  apply replicateM_inv. intros r0 a r0' H. now apply randint_range in H.
Qed.

Lemma randint_size_total low high n r :
  low < high ->
  exists xs r', randint_size low high n r = (Return xs, r') /\
                length xs = n /\ Forall (fun v => low <= v < high) xs.
Proof.
  intros Hlt. unfold randint_size. destruct (Z.ltb_spec low high); [| lia].
  apply replicateM_total. intros r0.
  destruct (randint_total low high r0 Hlt) as (v & Hv & Hr). eauto.
Qed.

Lemma randint_size_empty_range low high n r :
  high <= low -> randint_size low high n r = (Raise ValueError, r).
Proof.
  intros Hle. unfold randint_size. destruct (Z.ltb_spec low high); [lia |].
  reflexivity.
Qed.

Lemma random_unit_interval r :
  exists u, random r = (Return u, advance r) /\
            0 <= Qnum u < Zpos two53 /\ Qden u = two53.
Proof.
  eexists. split; [reflexivity |]. cbn [Qnum Qden]. split; [| reflexivity].
  assert (H : (raw r mod Npos two53 < Npos two53)%N)
    by (apply N.mod_upper_bound; discriminate).
  split; [apply N2Z.is_nonneg |].
  change (Z.pos two53) with (Z.of_N (N.pos two53)). now apply N2Z.inj_lt.
Qed.

Lemma py_getitem_nth {A : Type} (d : A) (l : list A) i :
  0 <= i < Z.of_nat (length l) -> py_getitem l i = Return (nth (Z.to_nat i) l d).
Proof.
  intros Hi. unfold py_getitem.
  destruct (Z.ltb_spec i 0); [lia |]. destruct (Z.ltb_spec i 0); [lia |].
  destruct (nth_error l (Z.to_nat i)) eqn:E.
  - now rewrite (nth_error_nth _ _ d E).
  - apply nth_error_None in E. lia.
Qed.

Lemma py_getitem_In {A : Type} (l : list A) i x :
  py_getitem l i = Return x -> In x l.
Proof.
  unfold py_getitem.
  destruct (_ <? 0); [discriminate |].
  destruct (nth_error l _) eqn:E; intros H; inversion H; subst.
  eapply nth_error_In; eauto.
Qed.

(** ** Tournament selection *)

Section Tournament.

Variable fitness : list Z.

Ltac read_fitness :=
  repeat match goal with
         | |- context [py_getitem fitness ?i] =>
             rewrite (py_getitem_nth 0 fitness i) by (simpl in *; lia)
         | H : context [py_getitem fitness ?i] |- _ =>
             rewrite (py_getitem_nth 0 fitness i) in H by (simpl in *; lia)
         end.

(** What a step that returns leaves in the slots, whatever the indices. *)
Lemma tournament_step_slots slots p slots' :
  tournament_step fitness slots p = Return slots' ->
  fst slots' <> None /\
  (fst slots <> None -> snd slots' <> None) /\
  (snd slots <> None -> snd slots' <> None).
Proof.
  destruct slots as [[m1 |] m2]; unfold tournament_step.
  - destruct (py_getitem fitness p) as [fp |]; [| discriminate].
    destruct (py_getitem fitness m1) as [f1 |]; [| discriminate]. simpl.
    destruct (fp >? f1).
    + intros H; inversion H; subst; simpl. repeat split; congruence.
    + destruct m2 as [m2 |].
      * destruct (py_getitem fitness m2) as [f2 |]; [| discriminate]. simpl.
        destruct (fp >? f2); intros H; inversion H; subst; simpl;
          repeat split; congruence.
      * intros H; inversion H; subst; simpl. repeat split; congruence.
  - intros H; inversion H; subst; simpl. repeat split; congruence.
Qed.

Lemma tournament_scan_slots participants : forall slots slots',
  tournament_scan fitness participants slots = Return slots' ->
  (fst slots <> None -> fst slots' <> None) /\
  (snd slots <> None -> snd slots' <> None) /\
  (fst slots <> None -> participants <> [] -> snd slots' <> None) /\
  (2 <= length participants -> snd slots' <> None)%nat.
Proof.
  induction participants as [| p ps IH]; intros slots slots' H; simpl in H.
  - inversion H; subst. repeat split; auto; simpl; try congruence; lia.
  - destruct (tournament_step fitness slots p) as [s1 |] eqn:E; [| discriminate].
    simpl in H. apply tournament_step_slots in E as (E1 & E2 & E3).
    destruct (IH _ _ H) as (I1 & I2 & I3 & I4).
    repeat split; auto.
    intros Hlen. destruct ps as [| q qs]; [simpl in Hlen; lia |].
    apply I3; [assumption | discriminate].
Qed.

(** With indices of the vector, a step returns and keeps indices of the
    vector. *)
Lemma tournament_step_total slots p :
  slot_ok (length fitness) (fst slots) ->
  slot_ok (length fitness) (snd slots) ->
  0 <= p < Z.of_nat (length fitness) ->
  exists slots', tournament_step fitness slots p = Return slots' /\
                 slot_ok (length fitness) (fst slots') /\
                 slot_ok (length fitness) (snd slots').
Proof.
  destruct slots as [[m1 |] m2]; simpl; intros H1 H2 Hp;
    unfold tournament_step; [| eauto].
  read_fitness. simpl.
  destruct (_ >? _); [eauto |].
  destruct m2 as [m2 |]; [| eauto].
  read_fitness. simpl. destruct (_ >? _); eauto.
Qed.

Lemma tournament_scan_total participants :
  Forall (fun p => 0 <= p < Z.of_nat (length fitness)) participants ->
  forall slots,
    slot_ok (length fitness) (fst slots) ->
    slot_ok (length fitness) (snd slots) ->
    exists slots', tournament_scan fitness participants slots = Return slots' /\
                   slot_ok (length fitness) (fst slots') /\
                   slot_ok (length fitness) (snd slots').
Proof.
  induction 1 as [| p ps Hp _ IH]; intros slots H1 H2; simpl; [eauto |].
  destruct (tournament_step_total slots p H1 H2 Hp) as (s1 & E & K1 & K2).
  rewrite E. simpl. now apply IH.
Qed.

Section UniqueMaximum.

Variable m : Z.
Hypothesis m_max : unique_maximum fitness m.

Lemma fitness_below_maximum i :
  0 <= i < Z.of_nat (length fitness) ->
  nth (Z.to_nat i) fitness 0 <= nth (Z.to_nat m) fitness 0.
Proof.
  intros Hi. destruct (Z.eq_dec i m) as [-> | Hne]; [lia |].
  destruct m_max as [_ Hm]. specialize (Hm i Hi Hne). lia.
Qed.

(** Once the maximum holds the first slot no draw takes it away; a draw of
    the maximum takes the first slot. *)
Lemma tournament_step_maximum slots p slots' :
  slot_ok (length fitness) (fst slots) ->
  slot_ok (length fitness) (snd slots) ->
  0 <= p < Z.of_nat (length fitness) ->
  fst slots = Some m \/ p = m ->
  tournament_step fitness slots p = Return slots' ->
  fst slots' = Some m.
Proof.
  destruct m_max as [Hm Hlt].
  destruct slots as [[m1 |] m2]; simpl; intros H1 H2 Hp Hor;
    unfold tournament_step.
  - read_fitness. simpl.
    destruct (Z.gtb_spec (nth (Z.to_nat p) fitness 0) (nth (Z.to_nat m1) fitness 0))
      as [Hgt | Hle].
    + intros H; inversion H; subst; simpl. f_equal.
      destruct Hor as [Hs | Hs]; [| assumption].
      inversion Hs; subst. pose proof (fitness_below_maximum p Hp). lia.
    + assert (m1 = m) as ->.
      { destruct Hor as [Hs | Hs]; [now inversion Hs | subst p].
        destruct (Z.eq_dec m1 m) as [| Hne]; [assumption |].
        specialize (Hlt m1 H1 Hne). lia. }
      destruct m2 as [m2 |].
      * read_fitness. simpl.
        destruct (_ >? _); intros H; inversion H; reflexivity.
      * intros H; inversion H; reflexivity.
  - intros H; inversion H; subst; simpl.
    destruct Hor as [Hs | Hs]; [discriminate | now subst].
Qed.

Lemma tournament_scan_keeps_maximum participants :
  Forall (fun p => 0 <= p < Z.of_nat (length fitness)) participants ->
  forall slots slots',
    slot_ok (length fitness) (fst slots) ->
    slot_ok (length fitness) (snd slots) ->
    fst slots = Some m \/ In m participants ->
    tournament_scan fitness participants slots = Return slots' ->
    fst slots' = Some m.
Proof.
  induction 1 as [| p ps Hp _ IH]; intros slots slots' H1 H2 Hor H; simpl in H.
  - inversion H; subst. destruct Hor as [Hs | []]. assumption.
  - destruct (tournament_step_total slots p H1 H2 Hp) as (s1 & E & K1 & K2).
    rewrite E in H. simpl in H.
    apply (IH s1 slots' K1 K2); [| assumption].
    destruct Hor as [Hs | [Hs | Hs]]; [left | left | now right];
      apply (tournament_step_maximum slots p s1 H1 H2 Hp); auto.
Qed.

End UniqueMaximum.

End Tournament.

Section TournamentParents.

Context {G : Type}.

Lemma population_at_nth (pop : list (Individual G)) i :
  0 <= i < Z.of_nat (length pop) ->
  population_at pop (Some i) = Return (nth (Z.to_nat i) pop []).
Proof. intros Hi. cbn [population_at]. now apply py_getitem_nth. Qed.

(** The parents a run of the scan with both slots bound hands over. *)
Lemma tournament_parents_of_slots (e : Engine G) participants max_1 max_2 :
  tournament_scan (population_fitness e) participants (None, None)
    = Return (Some max_1, Some max_2) ->
  0 <= max_1 < Z.of_nat (length (population e)) ->
  0 <= max_2 < Z.of_nat (length (population e)) ->
  tournament_parents e participants
    = Return (Some (nth (Z.to_nat max_1) (population e) []),
              Some (nth (Z.to_nat max_2) (population e) [])).
Proof.
  intros Hscan H1 H2. unfold tournament_parents. rewrite Hscan.
  cbn [obind fst snd population_at].
  rewrite (py_getitem_nth ([] : Individual G) (population e) max_1 H1).
  rewrite (py_getitem_nth ([] : Individual G) (population e) max_2 H2).
  reflexivity.
Qed.

Lemma tournament_scan_binds_both (fitness : list Z) participants :
  (2 <= length participants)%nat ->
  Forall (fun p => 0 <= p < Z.of_nat (length fitness)) participants ->
  exists max_1 max_2,
    tournament_scan fitness participants (None, None)
      = Return (Some max_1, Some max_2) /\
    0 <= max_1 < Z.of_nat (length fitness) /\
    0 <= max_2 < Z.of_nat (length fitness).
Proof.
  intros Hlen Hrange.
  destruct (tournament_scan_total fitness participants Hrange (None, None) I I)
    as ([s1 s2] & Hscan & K1 & K2).
  pose proof (tournament_scan_slots _ _ _ _ Hscan) as (_ & _ & _ & Hsnd).
  specialize (Hsnd Hlen). simpl in Hsnd.
  assert (Hfst : s1 <> None).
  { destruct participants as [| p ps]; [simpl in Hlen; lia |].
    simpl in Hscan.
    destruct (tournament_scan_slots _ _ _ _ Hscan) as (Hfst & _). 
    now apply Hfst. }
  destruct s1 as [m1 |]; [| congruence]. destruct s2 as [m2 |]; [| congruence].
  now exists m1, m2.
Qed.

End TournamentParents.

(** C6, as it is stated, fails: no fitness vector and no sequence of eight
    draws leave the runner-up slot unset, because the second draw always
    fills it ([max_2 = max_1] when it beats the best, [max_2 is None]
    otherwise). *)
Lemma tournament_runner_up_never_unset :
  ~ exists (fitness participants : list Z) (max_1 : option Z),
      length participants = 8%nat /\
      tournament_scan fitness participants (None, None) = Return (max_1, None).
Proof.
  intros (fitness & participants & max_1 & Hlen & Hscan).
  apply tournament_scan_slots in Hscan as (_ & _ & _ & Hsnd).
  apply Hsnd; [lia | reflexivity].
Qed.

Section Selection.

Context {G : Type}.

(** C6, amended: for every population and every sequence of eight draws of
    its indices, the scan ends with both slots bound, so that tournament
    selection always hands over a second parent. *)
Theorem tournament_binds_runner_up (e : Engine G) (participants : list Z) :
  length (population_fitness e) = length (population e) ->
  length participants = 8%nat ->
  Forall (fun p => 0 <= p < Z.of_nat (length (population e))) participants ->
  exists max_1 max_2 parent_1 parent_2,
    tournament_scan (population_fitness e) participants (None, None)
      = Return (Some max_1, Some max_2) /\
    tournament_parents e participants = Return (Some parent_1, Some parent_2).
Proof.
  intros Hfit Hlen Hrange. rewrite <- Hfit in Hrange.
  destruct (tournament_scan_binds_both (population_fitness e) participants) as (m1 & m2 & Hscan & H1 & H2);
    [lia | assumption |].
  rewrite Hfit in H1, H2.
  exists m1, m2. do 2 eexists. split; [exact Hscan |].
  exact (tournament_parents_of_slots e participants m1 m2 Hscan H1 H2).
Qed.

(** C7: when one index holds the strictly largest fitness and the eight
    draws of the tournament contain it, the individual at that index is
    returned as a parent (the first one). *)
Theorem tournament_selects_unique_maximum (e : Engine G) (m : Z)
    (participants : list Z) (r r' : RandomState) :
  pop_size e = Z.of_nat (length (population e)) ->
  length (population_fitness e) = length (population e) ->
  unique_maximum (population_fitness e) m ->
  randint_size 0 (pop_size e) 8 r = (Return participants, r') ->
  In m participants ->
  exists parent_2,
    tournament e r
      = (Return (Some (nth (Z.to_nat m) (population e) []), Some parent_2), r').
Proof.
  intros Hsize Hfit Hmax Hdraw Hin.
  apply randint_size_inv in Hdraw as Hps. destruct Hps as [Hlen Hrange].
  rewrite Hsize, <- Hfit in Hrange.
  destruct (tournament_scan_binds_both (population_fitness e) participants) as (m1 & m2 & Hscan & H1 & H2);
    [lia | assumption |].
  assert (Hm1 : Some m1 = Some m).
  { apply (tournament_scan_keeps_maximum _ m Hmax participants Hrange
             (None, None) (Some m1, Some m2)); simpl; auto. }
  inversion Hm1; subst m1. rewrite Hfit in H1, H2.
  eexists. unfold tournament. rewrite (bind_Return _ _ _ _ _ Hdraw).
  unfold lift.
  now rewrite (tournament_parents_of_slots e participants m m2 Hscan H1 H2).
Qed.

Lemma replicateM_randint_skip (low high : Z) : forall n r xs r',
  replicateM n (randint low high) r = (Return xs, r') -> r' = skip n r.
Proof.
  induction n as [| n IH]; intros r xs r' H; simpl in H.
  - inversion H; subst. now destruct r'.
  - apply bind_inv in H as (x & r1 & Hx & H).
    apply bind_inv in H as (ys & r2 & Hys & H).
    apply randint_range in Hx as [_ ->]. apply IH in Hys. inversion H; subst.
    unfold skip, advance. simpl. f_equal. lia.
Qed.

Lemma randint_size_skip (low high : Z) n r xs r' :
  randint_size low high n r = (Return xs, r') -> r' = skip n r.
Proof.
  unfold randint_size. destruct (low <? high); [| discriminate].
  apply replicateM_randint_skip.
Qed.

(** C5: an offspring is produced from the parents of roulette selection
    (which draws two numbers) when the mode is 0 and the first fitness of the
    vector is non-negative, and from the parents of the tournament (which
    draws eight) in every other case, whatever the mode; a reproduction step
    produces each of its offspring with mode 0, hence through that gate on
    the first fitness alone. *)
Theorem selection_gate (e : Engine G) (total_fitness mode : Z) (f0 : Z)
    (rest : list Z) :
  population_fitness e = f0 :: rest ->
  (mode = 0 /\ 0 <= f0 ->
   forall r, produce_offspring e total_fitness mode r
             = offspring_from e (roulette e total_fitness) r) /\
  (~ (mode = 0 /\ 0 <= f0) ->
   forall r, produce_offspring e total_fitness mode r
             = offspring_from e (tournament e) r) /\
  (forall r,
     reproduce e r
     = (new_population <-
          replicateM (Z.to_nat (pop_size e))
            (offspring_from e
               (if f0 >=? 0
                then roulette e (np_sum (population_fitness e))
                else tournament e)) ;;
        ret (set_population e new_population)) r) /\
  (forall r parents r',
     roulette e total_fitness r = (Return parents, r') -> r' = skip 2 r) /\
  (forall r parents r',
     tournament e r = (Return parents, r') -> r' = skip 8 r).
Proof.
  intros Hfit.
  assert (Hsel : forall total m,
            select_parents e total m
            = if m =? 0
              then if f0 >=? 0 then roulette e total else tournament e
              else tournament e).
  { intros total m. unfold select_parents. rewrite Hfit. reflexivity. }
  split; [| split; [| split; [| split]]].
  - intros [-> Hf0] r. unfold produce_offspring, offspring_from.
    rewrite Hsel. simpl. destruct (Z.geb_spec f0 0); [reflexivity | lia].
  - intros Hgate r. unfold produce_offspring, offspring_from. rewrite Hsel.
    destruct (Z.eqb_spec mode 0) as [-> | Hmode]; [| reflexivity].
    destruct (Z.geb_spec f0 0); [| reflexivity].
    exfalso. apply Hgate. split; [reflexivity | lia].
  - intros r. unfold reproduce, produce_offspring, offspring_from.
    rewrite Hsel. reflexivity.
  - intros r parents r' H. unfold roulette in H.
    apply bind_inv in H as (ts & r1 & Hts & H).
    apply randint_size_skip in Hts. subst r1.
    destruct ts as [| t1 [| t2 [| ? ?]]]; try discriminate.
    unfold lift in H. now inversion H.
  - intros r parents r' H. unfold tournament in H.
    apply bind_inv in H as (ps & r1 & Hps & H).
    apply randint_size_skip in Hps. subst r1.
    unfold lift in H. now inversion H.
Qed.

End Selection.

(** ** Roulette selection *)

Section Roulette.

Context {G : Type}.

Lemma py_getitem_skipn (fitness : list Z) (k : nat) f rest :
  skipn k fitness = f :: rest -> py_getitem fitness (Z.of_nat k) = Return f.
Proof.
  intros Hk.
  assert (Hlen : (k < length fitness)%nat).
  { destruct (Nat.lt_ge_cases k (length fitness)) as [| Hge]; [assumption |].
    rewrite skipn_all2 in Hk by assumption. discriminate. }
  rewrite (py_getitem_nth 0) by lia. rewrite Nat2Z.id. f_equal.
  rewrite <- (firstn_skipn k fitness) at 1.
  rewrite app_nth2; rewrite firstn_length_le by lia; [| lia].
  rewrite Nat.sub_diag, Hk. reflexivity.
Qed.

Lemma skipn_S_tail {A : Type} (l : list A) (k : nat) x rest :
  skipn k l = x :: rest -> skipn (S k) l = rest.
Proof.
  revert l. induction k as [| k IH]; intros [| y l] H; simpl in *;
    try discriminate.
  - now inversion H.
  - now apply IH.
Qed.

(** What the walk computes: a bound slot is bound again at every later
    position, so both slots leave the walk holding the individual at which
    the larger of the two targets is reached. *)
Lemma roulette_walk_later_target (fitness : list Z) (t1 t2 : Z) :
  forall (rest : list (Individual G)) (k : nat) (total : Z)
         (p1 p2 : option (Individual G)) (ind : Individual G),
    (p1 <> None -> t1 <= total) ->
    (p2 <> None -> t2 <= total) ->
    first_reaching (skipn k fitness) rest total (Z.max t1 t2) = Some ind ->
    roulette_walk fitness t1 t2 rest (Z.of_nat k) total p1 p2
      = Return (Some ind, Some ind).
Proof.
  induction rest as [| individual rest IH]; intros k total p1 p2 ind H1 H2 Hfirst;
    simpl in Hfirst; [discriminate |].
  destruct (skipn k fitness) as [| f fs] eqn:Hk; [discriminate |].
  simpl. rewrite (py_getitem_skipn fitness k f fs Hk). simpl.
  pose proof (Z.abs_nonneg f) as Habs. revert Hfirst.
  destruct (Z.geb_spec (total + Z.abs f) (Z.max t1 t2)) as [Hge | Hlt];
    intros Hfirst.
  - inversion Hfirst; subst ind.
    destruct (Z.geb_spec (total + Z.abs f) t1); [| lia].
    destruct (Z.geb_spec (total + Z.abs f) t2); [| lia].
    reflexivity.
  - assert (Hnone :
      is_None (if total + Z.abs f >=? t1 then Some individual else p1)
      || is_None (if total + Z.abs f >=? t2 then Some individual else p2) = true).
    { destruct (Z.geb_spec (total + Z.abs f) t1);
        destruct (Z.geb_spec (total + Z.abs f) t2); try lia.
      - destruct p2; [| apply orb_true_r]. specialize (H2 ltac:(discriminate)). lia.
      - destruct p1; [| reflexivity]. specialize (H1 ltac:(discriminate)). lia.
      - destruct p1; [| reflexivity]. specialize (H1 ltac:(discriminate)). lia. }
    rewrite Hnone. simpl.
    replace (Z.of_nat k + 1) with (Z.of_nat (S k)) by lia.
    apply IH.
    + destruct (Z.geb_spec (total + Z.abs f) t1); [lia |].
      intros Hp. specialize (H1 Hp). lia.
    + destruct (Z.geb_spec (total + Z.abs f) t2); [lia |].
      intros Hp. specialize (H2 Hp). lia.
    + now rewrite (skipn_S_tail fitness k f fs Hk).
Qed.

Lemma roulette_empty_range (e : Engine G) (total_fitness : Z) r :
  total_fitness <= 0 -> roulette e total_fitness r = (Raise ValueError, r).
Proof.
  intros Hle. unfold roulette. apply bind_Raise.
  now apply randint_size_empty_range.
Qed.

(** C10, amended: when the roulette branch is reached with a total fitness
    of zero (or below), the draw of the two targets is attempted on the empty
    range and raises [ValueError] before any number is drawn; there is no
    fallback choice of parents, no offspring is produced and a reproduction
    step that needs an offspring ends with that error. *)
Theorem roulette_without_fallback (e : Engine G) (total_fitness mode f0 : Z)
    (rest : list Z) (r : RandomState) :
  population_fitness e = f0 :: rest ->
  mode = 0 ->
  0 <= f0 ->
  total_fitness <= 0 ->
  produce_offspring e total_fitness mode r = (Raise ValueError, r) /\
  (1 <= pop_size e -> np_sum (population_fitness e) = total_fitness ->
   reproduce e r = (Raise ValueError, r)).
Proof.
  intros Hfit -> Hf0 Htotal.
  assert (Hproduce : forall total r0, total <= 0 ->
            produce_offspring e total 0 r0 = (Raise ValueError, r0)).
  { intros total r0 Hle. unfold produce_offspring. apply bind_Raise.
    unfold select_parents. rewrite Hfit. simpl.
    change (py_getitem (f0 :: rest) 0) with (Return f0).
    unfold bind at 1, lift.
    destruct (Z.geb_spec f0 0); [| lia]. now apply roulette_empty_range. }
  split; [now apply Hproduce |].
  intros Hsize Hsum. unfold reproduce. apply bind_Raise.
  apply replicateM_Raise; [| lia].
  intros r0. apply Hproduce. lia.
Qed.

End Roulette.

(** ** Crossover *)

Section Crossover.

Context {G : Type}.

Lemma py_prefix_firstn {A : Type} (l : list A) i :
  0 <= i <= Z.of_nat (length l) -> py_prefix l i = firstn (Z.to_nat i) l.
Proof.
  intros Hi. unfold py_prefix, slice_bound.
  destruct (Z.ltb_spec i 0); [lia |]. f_equal. lia.
Qed.

Lemma py_suffix_skipn {A : Type} (l : list A) i :
  0 <= i <= Z.of_nat (length l) -> py_suffix l i = skipn (Z.to_nat i) l.
Proof.
  intros Hi. unfold py_suffix, slice_bound.
  destruct (Z.ltb_spec i 0); [lia |]. f_equal. lia.
Qed.

Lemma splice_length {A : Type} (a b : list A) (n : nat) :
  length a = length b -> (n <= length a)%nat ->
  length (firstn n a ++ skipn n b) = length a.
Proof.
  intros Hab Hn. rewrite length_app, firstn_length_le, length_skipn by lia. lia.
Qed.

Lemma random_below_half r :
  Qltb (Z.of_N (raw r mod Npos two53) # two53) (1 # 2) = true
  <-> (raw r mod Npos two53 < 4503599627370496)%N.
Proof.
  unfold Qltb. cbn [Qnum Qden]. rewrite Z.ltb_lt. unfold two53. lia.
Qed.

(** C8, amended: for two parents of one length, at least 3, in non-viable
    mode, the crossover draws one breakpoint from [[1, len-1)] (every index
    of that range can be drawn), then one uniform number, below 0.5 for
    exactly half of its 2^53 values; the child is
    [parent1[0:breakpoint] + parent2[breakpoint:]] when the number is below
    0.5 and [parent2[0:breakpoint] + parent1[breakpoint:]] otherwise, and it
    has the length of the parents. *)
Theorem breakpoint_crossover_spec (e : Engine G)
    (parent_1 parent_2 : Individual G) (r : RandomState) :
  individual_viability_check e = false ->
  length parent_1 = length parent_2 ->
  (3 <= length parent_1)%nat ->
  let len := Z.of_nat (length parent_1) in
  exists (gen_breakpoint_index : Z) (u : Q) (child : Individual G),
    randint 1 (len - 1) r = (Return gen_breakpoint_index, advance r) /\
    1 <= gen_breakpoint_index < len - 1 /\
    (forall v, 1 <= v < len - 1 ->
               exists r0, randint 1 (len - 1) r0 = (Return v, advance r0)) /\
    random (advance r) = (Return u, advance (advance r)) /\
    (Qltb u (1 # 2) = true
     <-> (raw (advance r) mod Npos two53 < 4503599627370496)%N) /\
    crossover e (Some parent_1) (Some parent_2) r
      = (Return child, advance (advance r)) /\
    child = (if Qltb u (1 # 2)
             then firstn (Z.to_nat gen_breakpoint_index) parent_1
                  ++ skipn (Z.to_nat gen_breakpoint_index) parent_2
             else firstn (Z.to_nat gen_breakpoint_index) parent_2
                  ++ skipn (Z.to_nat gen_breakpoint_index) parent_1) /\
    length child = length parent_1.
Proof.
  intros Hcheck Hlen H3 len.
  destruct (randint_total 1 (len - 1) r) as (bp & Hbp & Hrange);
    [unfold len; lia |].
  exists bp, (Z.of_N (raw (advance r) mod Npos two53) # two53).
  eexists. split; [exact Hbp |]. split; [exact Hrange |].
  split.
  { intros v Hv. exists (mkRandom (fun _ => Z.to_N (v - 1)) 0).
    now apply randint_onto. }
  split; [reflexivity |]. split; [apply random_below_half |].
  split; [| split; [reflexivity |]].
  - unfold crossover. rewrite Hcheck. unfold breakpoint_crossover.
    fold len. rewrite (bind_Return _ _ _ _ _ Hbp).
    unfold bind, random, ret.
    rewrite !py_prefix_firstn, !py_suffix_skipn by (unfold len in *; lia).
    destruct (Qltb _ _); reflexivity.
  - destruct (Qltb _ _); [| symmetry in Hlen];
      (rewrite splice_length; [congruence | exact Hlen | unfold len in *; lia]).
Qed.

End Crossover.

(** ** Mutation *)

Section Mutation.

Context {G : Type}.

Lemma skip_advance n r : skip n (advance r) = skip (S n) r.
Proof. unfold skip, advance. simpl. f_equal. lia. Qed.

Lemma skip_zero r : skip 0 r = r.
Proof. now destruct r. Qed.

Lemma Qltb_rate_zero (u rate : Q) :
  (rate == 0)%Q -> 0 <= Qnum u -> Qltb u rate = false.
Proof.
  unfold Qeq, Qltb. simpl. intros Hrate Hu. apply Z.ltb_ge.
  replace (Qnum rate) with 0 by lia. lia.
Qed.


Lemma mutation_loop_rate_zero (e : Engine G) :
  (mutation_rate e == 0)%Q ->
  forall n i child r, mutation_loop e n i child r = (Return child, skip n r).
Proof.
  intros Hrate. induction n as [| n IH]; intros i child r; simpl.
  - unfold ret. now rewrite skip_zero.
  - destruct (random_unit_interval r) as (u & Hu & Hnum & _).
    rewrite (bind_Return _ _ _ _ _ Hu).
    rewrite (Qltb_rate_zero u _ Hrate) by lia.
    unfold bind at 1, ret at 1. rewrite IH. now rewrite skip_advance.
Qed.


Lemma py_getitem_middle {A : Type} (done todo : list A) x :
  py_getitem (done ++ x :: todo) (Z.of_nat (length done)) = Return x.
Proof.
  unfold py_getitem.
  destruct (Z.ltb_spec (Z.of_nat (length done)) 0); [lia |].
  destruct (Z.ltb_spec (Z.of_nat (length done)) 0); [lia |].
  rewrite Nat2Z.id, nth_error_app2, Nat.sub_diag by lia. reflexivity.
Qed.

Lemma py_setitem_middle {A : Type} (done todo : list A) x y :
  py_setitem (done ++ x :: todo) (length done) y = Return (done ++ y :: todo).
Proof.
  induction done as [| d done IH]; simpl; [reflexivity |]. now rewrite IH.
Qed.






End Mutation.

(** ** Construction *)

Section Construction.

Context {G : Type}.

Lemma call_total {A : Type} (f : Gen A) r :
  exists a r', call f r = (Return a, r') /\ f r = (a, r').
Proof. unfold call. destruct (f r) as [a r']. eauto. Qed.

Lemma call_inv {A : Type} (f : Gen A) r a r' :
  call f r = (Return a, r') -> f r = (a, r').
Proof. unfold call. destruct (f r). now inversion 1. Qed.

Lemma init_population (c : Config G) r e r' :
  init c r = (Return e, r') ->
  config e = c /\ population_fitness e = [] /\
  replicateM (Z.to_nat (pop_size c)) (appropriate_factory c) r
    = (Return (population e), r').
Proof.
  unfold init, appropriate_factory. intros H.
  apply bind_inv in H as ([] & r1 & Hcheck & H).
  unfold lift in Hcheck. inversion Hcheck; subst r1.
  apply bind_inv in H as (pop & r2 & Hpop & H).
  inversion H; subst. simpl.
  destruct (individual_viability_check c); auto.
Qed.

(** C4: with the viability check on and a capability of the bundle left
    out, construction raises the error that carries the name of a missing
    capability, before any factory call (the random stream is untouched) and
    without an engine; with the check off, or with the four capabilities
    given, it returns an engine. *)
Theorem construction_checks_viability_bundle (c : Config G) (r : RandomState) :
  (individual_viability_check c = true ->
   individual_viability_condition c = None \/ viable_mutation c = None \/
   viable_crossover c = None \/ viable_individual_factory c = None ->
   exists name, init c r = (Raise (NotImplementedError name), r) /\
                missing_capability c name) /\
  (individual_viability_check c = false \/
   (individual_viability_condition c <> None /\ viable_mutation c <> None /\
    viable_crossover c <> None /\ viable_individual_factory c <> None) ->
   exists e r', init c r = (Return e, r') /\ config e = c).
Proof.
  split.
  - intros Hcheck Hmissing. unfold init. rewrite Hcheck.
    unfold missing_capability, check_viability_bundle.
    destruct (individual_viability_condition c);
      [| eexists; split; [reflexivity | tauto]].
    destruct (viable_mutation c);
      [| eexists; split; [reflexivity | tauto]].
    destruct (viable_crossover c);
      [| eexists; split; [reflexivity | tauto]].
    destruct (viable_individual_factory c);
      [| eexists; split; [reflexivity | tauto]].
    exfalso. destruct Hmissing as [H | [H | [H | H]]]; discriminate.
  - intros Hok.
    assert (Hbundle : (if individual_viability_check c
                       then check_viability_bundle c else Return tt) = Return tt).
    { destruct (individual_viability_check c); [| reflexivity].
      destruct Hok as [H | (H1 & H2 & H3 & H4)]; [discriminate |].
      unfold check_viability_bundle.
      destruct (individual_viability_condition c); [| congruence].
      destruct (viable_mutation c); [| congruence].
      destruct (viable_crossover c); [| congruence].
      destruct (viable_individual_factory c); [reflexivity | congruence]. }
    assert (Hfactory : forall r0, exists a r1,
              appropriate_factory c r0 = (Return a, r1) /\ True).
    { intros r0. unfold appropriate_factory.
      destruct (individual_viability_check c) eqn:Hcheck.
      - destruct Hok as [H | (_ & _ & _ & H4)]; [discriminate |].
        destruct (viable_individual_factory c) as [f |]; [| congruence].
        destruct (call_total f r0) as (a & r1 & Ha & _). eauto.
      - destruct (call_total (individual_factory c) r0) as (a & r1 & Ha & _).
        eauto. }
    destruct (replicateM_total _ _ Hfactory (Z.to_nat (pop_size c)) r)
      as (pop & r' & Hpop & _).
    exists (mkEngine c pop []), r'. split; [| reflexivity].
    unfold init. rewrite Hbundle. unfold bind at 1, lift.
    unfold appropriate_factory in Hpop.
    destruct (individual_viability_check c);
      now rewrite (bind_Return _ _ _ _ _ Hpop).
Qed.

End Construction.

(** ** The population invariant *)

Section PopulationInvariant.

Context {G : Type}.

Variable P : Individual G -> Prop.

Lemma roulette_walk_slots (fitness : list Z) (t1 t2 : Z) :
  forall rest index total p1 p2 q1 q2,
    Forall P rest -> slot_has P p1 -> slot_has P p2 ->
    roulette_walk fitness t1 t2 rest index total p1 p2 = Return (q1, q2) ->
    slot_has P q1 /\ slot_has P q2.
Proof.
  induction rest as [| individual rest IH];
    intros index total p1 p2 q1 q2 Hrest H1 H2 H; simpl in H.
  - now inversion H; subst.
  - inversion Hrest as [| ? ? Hind Hrest']; subst.
    destruct (py_getitem fitness index) as [f |]; [| discriminate].
    simpl in H.
    remember (if total + Z.abs f >=? t1 then Some individual else p1) as s1 eqn:E1.
    remember (if total + Z.abs f >=? t2 then Some individual else p2) as s2 eqn:E2.
    assert (K1 : slot_has P s1)
      by (rewrite E1; destruct (total + Z.abs f >=? t1); simpl; assumption).
    assert (K2 : slot_has P s2)
      by (rewrite E2; destruct (total + Z.abs f >=? t2); simpl; assumption).
    destruct (negb (is_None s1 || is_None s2)).
    + inversion H; subst q1 q2. now split.
    + exact (IH _ _ _ _ _ _ Hrest' K1 K2 H).
Qed.

Lemma tournament_parents_slots (e : Engine G) participants q1 q2 :
  Forall P (population e) ->
  tournament_parents e participants = Return (q1, q2) ->
  slot_has P q1 /\ slot_has P q2.
Proof.
  intros Hpop H. unfold tournament_parents in H.
  destruct (tournament_scan _ _ _) as [[m1 m2] |];
    cbn [obind fst snd] in H; [| discriminate].
  destruct m1 as [m1 |]; cbn [population_at obind] in H; [| discriminate].
  destruct (py_getitem (population e) m1) as [x1 |] eqn:E1;
    cbn [obind] in H; [| discriminate].
  destruct m2 as [m2 |]; cbn [population_at obind] in H; [| discriminate].
  destruct (py_getitem (population e) m2) as [x2 |] eqn:E2;
    cbn [obind] in H; [| discriminate].
  inversion H; subst. simpl.
  rewrite Forall_forall in Hpop.
  split; apply Hpop; eapply py_getitem_In; eauto.
Qed.

Lemma select_parents_slots (e : Engine G) total_fitness mode r q1 q2 r' :
  Forall P (population e) ->
  select_parents e total_fitness mode r = (Return (q1, q2), r') ->
  slot_has P q1 /\ slot_has P q2.
Proof.
  intros Hpop.
  assert (Hroulette : forall r0, roulette e total_fitness r0 = (Return (q1, q2), r') ->
                                 slot_has P q1 /\ slot_has P q2).
  { intros r0 H. unfold roulette in H. apply bind_inv in H as (ts & r1 & _ & H).
    destruct ts as [| t1 [| t2 [| ? ?]]]; try discriminate.
    unfold lift in H. inversion H as [[Hwalk Hr]].
    eapply roulette_walk_slots; eauto; exact I. }
  assert (Htournament : forall r0, tournament e r0 = (Return (q1, q2), r') ->
                                   slot_has P q1 /\ slot_has P q2).
  { intros r0 H. unfold tournament in H. apply bind_inv in H as (ps & r1 & _ & H).
    unfold lift in H. inversion H as [[Hparents Hr]].
    eapply tournament_parents_slots; eauto. }
  unfold select_parents. destruct (mode =? 0); [| apply Htournament].
  intros H. apply bind_inv in H as (f0 & r1 & _ & H).
  destruct (f0 >=? 0); eauto.
Qed.

End PopulationInvariant.

Section Lengths.

Context {G : Type}.

Lemma py_setitem_length {A : Type} (l : list A) : forall i x l',
  py_setitem l i x = Return l' -> length l' = length l.
Proof.
  induction l as [| h t IH]; intros [| i] x l' H; simpl in H; try discriminate.
  - now inversion H.
  - destruct (py_setitem t i x) as [t' |] eqn:E; [| discriminate].
    simpl in H. inversion H; subst. simpl. f_equal. eauto.
Qed.

Lemma mutate_gene_at_length (e : Engine G) child i r child' r' :
  mutate_gene_at e child i r = (Return child', r') ->
  length child' = length child.
Proof.
  unfold mutate_gene_at. destruct (individual_viability_check e).
  - destruct (viable_mutation e) as [f |]; [| discriminate].
    intros H. apply bind_inv in H as (g & r1 & _ & H).
    unfold lift in H. inversion H as [[Hset Hr]].
    eapply py_setitem_length; eauto.
  - intros H. apply bind_inv in H as (old & r1 & _ & H).
    apply bind_inv in H as (g & r2 & _ & H).
    unfold lift in H. inversion H as [[Hset Hr]].
    eapply py_setitem_length; eauto.
Qed.

Lemma mutation_loop_length (e : Engine G) : forall n i child r child' r',
  mutation_loop e n i child r = (Return child', r') ->
  length child' = length child.
Proof.
  induction n as [| n IH]; intros i child r child' r' H; simpl in H.
  - now inversion H.
  - apply bind_inv in H as (u & r1 & _ & H).
    apply bind_inv in H as (c1 & r2 & Hc1 & H).
    apply IH in H. rewrite H.
    destruct (Qltb u (mutation_rate e)).
    + eapply mutate_gene_at_length; eauto.
    + now inversion Hc1.
Qed.

Lemma breakpoint_crossover_length (len : nat) p1 p2 r (child : Individual G) r' :
  slot_has (fun ind => length ind = len) p1 ->
  slot_has (fun ind => length ind = len) p2 ->
  breakpoint_crossover p1 p2 r = (Return child, r') ->
  length child = len.
Proof.
  unfold breakpoint_crossover. intros H1 H2.
  destruct p1 as [a |]; [| discriminate]. simpl in H1.
  intros H. apply bind_inv in H as (bp & r1 & Hbp & H).
  apply randint_range in Hbp as [Hbp _].
  apply bind_inv in H as (u & r2 & _ & H).
  destruct p2 as [b |]; [| discriminate]. simpl in H2.
  rewrite !py_prefix_firstn, !py_suffix_skipn in H by lia.
  destruct (Qltb u (1 # 2)); inversion H; subst child;
    rewrite splice_length; lia.
Qed.

Lemma crossover_length (e : Engine G) (len : nat) p1 p2 r child r' :
  length_contracts e len ->
  slot_has (fun ind => length ind = len) p1 ->
  slot_has (fun ind => length ind = len) p2 ->
  crossover e p1 p2 r = (Return child, r') ->
  length child = len.
Proof.
  intros (_ & _ & Hcross) H1 H2. unfold crossover.
  destruct (individual_viability_check e);
    [| now apply breakpoint_crossover_length].
  destruct (viable_crossover e) as [f |] eqn:Ef; [| discriminate].
  destruct p1 as [a |]; [| discriminate]. destruct p2 as [b |]; [| discriminate].
  intros H. apply call_inv in H. simpl in H1, H2.
  specialize (Hcross f eq_refl a b r H1 H2). now rewrite H in Hcross.
Qed.

Lemma produce_offspring_length (e : Engine G) (len : nat) total_fitness mode
    r child r' :
  length_contracts e len ->
  Forall (fun ind => length ind = len) (population e) ->
  produce_offspring e total_fitness mode r = (Return child, r') ->
  length child = len.
Proof.
  intros Hcontracts Hpop H. unfold produce_offspring in H.
  apply bind_inv in H as ([q1 q2] & r1 & Hsel & H).
  apply bind_inv in H as (c0 & r2 & Hcross & H).
  apply (select_parents_slots _ e _ _ _ _ _ _ Hpop) in Hsel as [K1 K2].
  apply (crossover_length e len _ _ _ _ _ Hcontracts K1 K2) in Hcross.
  apply mutation_loop_length in H. congruence.
Qed.

Lemma reproduce_population (e : Engine G) (len : nat) r e' r' :
  0 <= pop_size e ->
  length_contracts e len ->
  Forall (fun ind => length ind = len) (population e) ->
  reproduce e r = (Return e', r') ->
  config e' = config e /\ population_fitness e' = population_fitness e /\
  population_ok e len (population e').
Proof.
  intros Hsize Hcontracts Hpop H. unfold reproduce in H.
  apply bind_inv in H as (pop & r1 & Hrep & H). inversion H; subst.
  unfold population_ok, set_population.
  cbn [config population population_fitness].
  apply (replicateM_inv (fun ind => length ind = len)) in Hrep as [Hlen Hall].
  - split; [reflexivity | split; [reflexivity | split; [| assumption]]].
    rewrite Hlen. now apply Z2Nat.id.
  - intros r0 a r0' Ha. eapply produce_offspring_length; eauto.
Qed.

Lemma generations_population (len : nat) : forall n (e : Engine G) r e' r',
  0 <= pop_size e ->
  length_contracts e len ->
  population_ok e len (population e) ->
  generations n e r = (Return e', r') ->
  config e' = config e /\ population_ok e len (population e').
Proof.
  induction n as [| n IH]; intros e r e' r' Hsize Hcontracts Hpop H; simpl in H.
  - now inversion H; subst.
  - apply bind_inv in H as (e1 & r1 & Hrep & H).
    apply (reproduce_population (evaluate e) len) in Hrep
      as (Hcfg & _ & Hpop1); [| assumption | assumption | apply Hpop].
    simpl in Hcfg, Hpop1.
    apply IH in H; rewrite ?Hcfg; try assumption.
    destruct H as [Hcfg' Hpop']. rewrite Hcfg in Hcfg', Hpop'. now split.
Qed.

(** C3: for a configuration with [pop_size >= 1] whose factories and
    viable crossover honour their length contracts, construction builds the
    population by [pop_size] calls of the factory in use; every reproduction
    step that completes, on a population of individuals of one length and of
    any size, replaces it by the [pop_size] offspring it produced, exactly
    [pop_size] individuals of the same gene-sequence length; and so the
    population of every generation has exactly [pop_size] individuals of
    equal length. *)
Theorem population_invariant (c : Config G) (len : nat) :
  1 <= pop_size c ->
  length_contracts c len ->
  (forall r e r',
     init c r = (Return e, r') ->
     config e = c /\
     replicateM (Z.to_nat (pop_size c)) (appropriate_factory c) r
       = (Return (population e), r') /\
     population_ok c len (population e)) /\
  (forall e r e' r',
     config e = c ->
     Forall (fun ind => length ind = len) (population e) ->
     reproduce e r = (Return e', r') ->
     config e' = c /\
     replicateM (Z.to_nat (pop_size c))
       (produce_offspring e (np_sum (population_fitness e)) 0) r
       = (Return (population e'), r') /\
     population_ok c len (population e')) /\
  (forall n r e r',
     (e0 <- init c ;; generations n e0) r = (Return e, r') ->
     config e = c /\ population_ok c len (population e)).
Proof.
  intros Hsize Hcontracts.
  assert (Hinit : forall r e r',
     init c r = (Return e, r') ->
     config e = c /\
     replicateM (Z.to_nat (pop_size c)) (appropriate_factory c) r
       = (Return (population e), r') /\
     population_ok c len (population e)).
  { intros r e r' H. apply init_population in H as (Hcfg & _ & Hrep).
    repeat split; try assumption;
      apply (replicateM_inv (fun ind => length ind = len)) in Hrep
        as [Hlen Hall]; try assumption; try lia;
      intros r0 a r0' Ha; unfold appropriate_factory in Ha;
      destruct Hcontracts as (Hplain & Hviable & _);
      destruct (individual_viability_check c).
    all: try (destruct (viable_individual_factory c) as [f |] eqn:Ef;
              [| discriminate];
              apply call_inv in Ha;
              specialize (Hviable f eq_refl r0); now rewrite Ha in Hviable).
    all: apply call_inv in Ha; specialize (Hplain eq_refl r0);
      now rewrite Ha in Hplain. }
  split; [exact Hinit |]. split.
  - intros e r e' r' Hcfg Hpop Hrep.
    assert (Hnew : replicateM (Z.to_nat (pop_size c))
                     (produce_offspring e (np_sum (population_fitness e)) 0) r
                   = (Return (population e'), r')).
    { unfold reproduce in Hrep.
      apply bind_inv in Hrep as (pop & r1 & Hpop' & Hrep).
      inversion Hrep; subst e' r1. cbn [population set_population].
      rewrite <- Hcfg. exact Hpop'. }
    apply (reproduce_population e len) in Hrep as (Hcfg' & _ & Hpop');
      rewrite ?Hcfg in *; try tauto; try lia.
  - intros n r e r' H. apply bind_inv in H as (e0 & r0 & H0 & H).
    apply Hinit in H0 as (Hcfg & _ & Hpop).
    apply (generations_population len) in H; rewrite ?Hcfg in *;
      try tauto; lia.
Qed.

End Lengths.

(** ** The simulation loop *)

Section Simulation.

Context {G : Type}.

Lemma argmax_from_range (l : list Z) : forall i best_i best,
  0 <= best_i < i ->
  0 <= argmax_from l i best_i best < i + Z.of_nat (length l).
Proof.
  induction l as [| x t IH]; intros i best_i best Hi; simpl argmax_from.
  - simpl. lia.
  - change (length (x :: t)) with (S (length t)).
    destruct (x >? best).
    + specialize (IH (i + 1) i x). lia.
    + specialize (IH (i + 1) best_i best). lia.
Qed.

(** The metrics of an evaluated, non-empty population are defined. *)
Lemma metrics_total (e : Engine G) :
  population e <> [] -> exists m, metrics (evaluate e) = Return m.
Proof.
  intros Hpop. unfold metrics, evaluate.
  cbn [population_fitness population set_population_fitness].
  destruct (population e) as [| ind pop] eqn:E; [congruence |].
  remember (fitness_function e) as fit.
  cbn [map np_max np_min np_argmax obind].
  pose proof (argmax_from_range (map fit pop) 1 0 (fit ind) ltac:(lia)) as Hr.
  rewrite length_map in Hr.
  rewrite (py_getitem_nth ind) by (simpl length; lia).
  cbn [obind]. eauto.
Qed.

Lemma reproduce_nonempty (e : Engine G) r e' r' :
  1 <= pop_size e ->
  reproduce e r = (Return e', r') ->
  config e' = config e /\ population e' <> [].
Proof.
  intros Hsize H. unfold reproduce in H.
  apply bind_inv in H as (pop & r1 & Hrep & H). inversion H; subst.
  split; [reflexivity |].
  apply (replicateM_inv (fun _ => True)) in Hrep as [Hlen _]; [| trivial].
  cbn [population set_population]. destruct pop; [simpl in Hlen; lia | discriminate].
Qed.

Lemma record_metrics_recorded (acc : RunResult G) m n :
  generations_recorded acc n -> generations_recorded (record_metrics acc m) (S n).
Proof.
  unfold generations_recorded, record_metrics. simpl.
  rewrite !length_app. simpl. lia.
Qed.



End Simulation.

(** ** When a reproduction step returns *)

Section ReproductionReturns.

Context {G : Type}.

Lemma np_sum_from (l : list Z) : forall a,
  fold_left Z.add l a = a + np_sum l.
Proof.
  unfold np_sum. induction l as [| x l IH]; intros a; simpl; [lia |].
  rewrite (IH (a + x)), (IH x). lia.
Qed.

(** The walk reaches every target that the absolute values can pay for. *)
Lemma first_reaching_exists : forall (pop : list (Individual G)) fitness total target,
  length fitness = length pop ->
  pop <> [] ->
  target <= total + np_sum (map Z.abs fitness) ->
  exists ind, first_reaching fitness pop total target = Some ind.
Proof.
  induction pop as [| individual pop IH]; intros fitness total target Hlen Hne Hsum;
    [congruence |].
  destruct fitness as [| f fitness]; [discriminate |]. simpl.
  destruct (Z.geb_spec (total + Z.abs f) target) as [Hge | Hlt]; [eauto |].
  unfold np_sum in Hsum. simpl in Hsum. rewrite np_sum_from in Hsum.
  apply IH; [simpl in Hlen; lia | | lia].
  destruct pop; [| discriminate].
  destruct fitness; [| discriminate]. unfold np_sum in Hsum. simpl in Hsum. lia.
Qed.

Lemma np_sum_le_abs (l : list Z) : np_sum l <= np_sum (map Z.abs l).
Proof.
  induction l as [| x l IH]; [reflexivity |].
  unfold np_sum. simpl.
  rewrite (np_sum_from l x), (np_sum_from (map Z.abs l) (Z.abs x)). lia.
Qed.

Lemma roulette_returns (e : Engine G) r :
  length (population_fitness e) = length (population e) ->
  0 < np_sum (population_fitness e) ->
  exists ind r',
    roulette e (np_sum (population_fitness e)) r = (Return (Some ind, Some ind), r')
    /\ In ind (population e).
Proof.
  intros Hlen Hpos.
  destruct (randint_size_total 0 (np_sum (population_fitness e)) 2 r Hpos)
    as (ts & r' & Hts & Hlen2 & Hrange).
  destruct ts as [| t1 [| t2 [| ? ?]]]; try discriminate.
  inversion Hrange as [| ? ? Ht1 Hrange']; subst.
  inversion Hrange' as [| ? ? Ht2 _]; subst.
  assert (Hne : population e <> []).
  { intros Hnil. rewrite Hnil in Hlen.
    destruct (population_fitness e); [| discriminate].
    unfold np_sum in Hpos. simpl in Hpos. lia. }
  pose proof (np_sum_le_abs (population_fitness e)) as Habs.
  destruct (first_reaching_exists (population e) (population_fitness e) 0
              (Z.max t1 t2) Hlen Hne) as (ind & Hind); [lia |].
  assert (Hwalk := roulette_walk_later_target (population_fitness e) t1 t2
                     (population e) 0 0 None None ind).
  simpl in Hwalk. specialize (Hwalk ltac:(congruence) ltac:(congruence) Hind).
  exists ind, r'. split.
  - unfold roulette. rewrite (bind_Return _ _ _ _ _ Hts). unfold lift.
    now rewrite Hwalk.
  - assert (K : slot_has (fun x => In x (population e)) (Some ind) /\
                slot_has (fun x => In x (population e)) (Some ind)).
    { apply (roulette_walk_slots (fun x => In x (population e))
               (population_fitness e) t1 t2 (population e) 0 0 None None);
        [now apply Forall_forall | exact I | exact I | exact Hwalk]. }
    exact (proj1 K).
Qed.

Lemma tournament_returns (e : Engine G) r :
  length (population_fitness e) = length (population e) ->
  Z.of_nat (length (population e)) = pop_size e ->
  1 <= pop_size e ->
  exists p1 p2 r',
    tournament e r = (Return (Some p1, Some p2), r')
    /\ In p1 (population e) /\ In p2 (population e).
Proof.
  intros Hlen Hsize Hpos.
  destruct (randint_size_total 0 (pop_size e) 8 r) as (ps & r' & Hps & Hlen8 & Hrange);
    [lia |].
  rewrite <- Hsize, <- Hlen in Hrange.
  destruct (tournament_scan_binds_both (population_fitness e) ps)
    as (m1 & m2 & Hscan & H1 & H2); [lia | assumption |].
  rewrite Hlen in H1, H2.
  pose proof (tournament_parents_of_slots e ps m1 m2 Hscan H1 H2) as Hparents.
  do 2 eexists. exists r'. split.
  - unfold tournament. rewrite (bind_Return _ _ _ _ _ Hps). unfold lift.
    now rewrite Hparents.
  - split; apply nth_In; lia.
Qed.

Lemma select_parents_returns (e : Engine G) f0 rest r :
  population_fitness e = f0 :: rest ->
  length (population_fitness e) = length (population e) ->
  Z.of_nat (length (population e)) = pop_size e ->
  f0 < 0 \/ 0 < np_sum (population_fitness e) ->
  exists p1 p2 r',
    select_parents e (np_sum (population_fitness e)) 0 r
      = (Return (Some p1, Some p2), r')
    /\ In p1 (population e) /\ In p2 (population e).
Proof.
  intros Hfit Hlen Hsize Hcase.
  assert (Hpos : 1 <= pop_size e).
  { rewrite <- Hsize, <- Hlen, Hfit. simpl length. lia. }
  assert (Hsel : select_parents e (np_sum (population_fitness e)) 0
                 = if f0 >=? 0 then roulette e (np_sum (population_fitness e))
                   else tournament e).
  { unfold select_parents. rewrite Hfit at 1. reflexivity. }
  rewrite Hsel. destruct (Z.geb_spec f0 0) as [Hge | Hlt].
  - destruct Hcase as [Hneg | Hsum]; [lia |].
    destruct (roulette_returns e r Hlen Hsum) as (ind & r' & Hr & Hin).
    now exists ind, ind, r'.
  - now apply tournament_returns.
Qed.

Lemma py_setitem_total {A : Type} (l : list A) : forall i x,
  (i < length l)%nat -> exists l', py_setitem l i x = Return l'.
Proof.
  induction l as [| h t IH]; intros [| i] x Hi; simpl in *; try lia; [eauto |].
  destruct (IH i x) as (t' & Ht); [lia |]. rewrite Ht. simpl. eauto.
Qed.

Lemma mutate_gene_at_returns (e : Engine G) child i r :
  (individual_viability_check e = true -> viable_mutation e <> None) ->
  (i < length child)%nat ->
  exists child' r', mutate_gene_at e child i r = (Return child', r').
Proof.
  intros Hbundle Hi. unfold mutate_gene_at.
  destruct (individual_viability_check e).
  - destruct (viable_mutation e) as [f |]; [| now specialize (Hbundle eq_refl)].
    destruct (call_total (f child i) r) as (g & r1 & Hg & _).
    destruct (py_setitem_total child i g Hi) as (child' & Hset).
    exists child', r1. rewrite (bind_Return _ _ _ _ _ Hg). unfold lift.
    now rewrite Hset.
  - destruct (nth_error child i) as [old |] eqn:Hold;
      [| apply nth_error_None in Hold; lia].
    assert (Hget : py_getitem child (Z.of_nat i) = Return old).
    { rewrite (py_getitem_nth old) by lia. rewrite Nat2Z.id.
      f_equal. now apply nth_error_nth. }
    destruct (call_total (mutate e old) r) as (g & r1 & Hg & _).
    destruct (py_setitem_total child i g Hi) as (child' & Hset).
    exists child', r1. rewrite Hget. unfold bind at 1, lift at 1.
    rewrite (bind_Return _ _ _ _ _ Hg). unfold lift. now rewrite Hset.
Qed.

Lemma mutation_loop_returns (e : Engine G) :
  (individual_viability_check e = true -> viable_mutation e <> None) ->
  forall n i child r,
    (i + n <= length child)%nat ->
    exists child' r', mutation_loop e n i child r = (Return child', r').
Proof.
  intros Hbundle. induction n as [| n IH]; intros i child r Hi; simpl.
  - unfold ret. eauto.
  - destruct (random_unit_interval r) as (u & Hu & _).
    rewrite (bind_Return _ _ _ _ _ Hu).
    destruct (Qltb u (mutation_rate e)).
    + destruct (mutate_gene_at_returns e child i (advance r) Hbundle)
        as (c1 & r1 & Hc1); [lia |].
      rewrite (bind_Return _ _ _ _ _ Hc1).
      apply IH. apply mutate_gene_at_length in Hc1. lia.
    + unfold bind at 1, ret at 1. apply IH. lia.
Qed.

Lemma crossover_returns (e : Engine G) (len : nat) p1 p2 r :
  (individual_viability_check e = true -> viable_crossover e <> None) ->
  (individual_viability_check e = false -> (3 <= len)%nat) ->
  length p1 = len -> length p2 = len ->
  exists child r', crossover e (Some p1) (Some p2) r = (Return child, r').
Proof.
  intros Hbundle Hlen3 H1 H2. unfold crossover.
  destruct (individual_viability_check e).
  - destruct (viable_crossover e) as [f |]; [| now specialize (Hbundle eq_refl)].
    destruct (call_total (f p1 p2) r) as (c & r1 & Hc & _). eauto.
  - specialize (Hlen3 eq_refl). unfold breakpoint_crossover.
    destruct (randint_total 1 (Z.of_nat (length p1) - 1) r) as (bp & Hbp & _);
      [lia |].
    rewrite (bind_Return _ _ _ _ _ Hbp).
    destruct (random_unit_interval (advance r)) as (u & Hu & _).
    rewrite (bind_Return _ _ _ _ _ Hu).
    destruct (Qltb u (1 # 2)); unfold ret; eauto.
Qed.

(** A reproduction step on an evaluated population returns as soon as the
    draw of the selection is defined: the first fitness is negative
    (tournament) or the total fitness is positive (roulette).  In non-viable
    mode the individuals need three genes for the breakpoint to exist. *)
Lemma reproduce_returns (e : Engine G) (len : nat) f0 rest r :
  population_ok e len (population e) ->
  length_contracts e len ->
  (individual_viability_check e = true ->
   viable_crossover e <> None /\ viable_mutation e <> None) ->
  (individual_viability_check e = false -> (3 <= len)%nat) ->
  population_fitness (evaluate e) = f0 :: rest ->
  f0 < 0 \/ 0 < np_sum (population_fitness (evaluate e)) ->
  exists e' r',
    reproduce (evaluate e) r = (Return e', r') /\
    population_ok e len (population e').
Proof.
  intros [Hsize Hall] Hcontracts Hbundle Hlen3 Hfit Hcase.
  assert (Hlen : length (population_fitness (evaluate e))
                 = length (population (evaluate e))).
  { unfold evaluate. cbn [population_fitness population set_population_fitness].
    apply length_map. }
  assert (Hoffspring : forall r0, exists child r1,
            produce_offspring (evaluate e)
              (np_sum (population_fitness (evaluate e))) 0 r0 = (Return child, r1)
            /\ True).
  { intros r0.
    destruct (select_parents_returns (evaluate e) f0 rest r0 Hfit Hlen Hsize Hcase)
      as (p1 & p2 & r1 & Hsel & Hin1 & Hin2).
    rewrite Forall_forall in Hall.
    destruct (crossover_returns (evaluate e) len p1 p2 r1)
      as (c & r2 & Hc); auto; try (intros Hv; exact (proj1 (Hbundle Hv))).
    destruct (mutation_loop_returns (evaluate e)
                (fun Hv => proj2 (Hbundle Hv)) (length c) 0 c r2)
      as (c' & r3 & Hc'); [lia |].
    exists c', r3. split; [| exact I]. unfold produce_offspring.
    rewrite (bind_Return _ _ _ _ _ Hsel). cbn [fst snd].
    rewrite (bind_Return _ _ _ _ _ Hc). exact Hc'. }
  destruct (replicateM_total _ _ Hoffspring (Z.to_nat (pop_size e)) r)
    as (pop & r' & Hpop & _).
  assert (Hrep : reproduce (evaluate e) r = (Return (set_population (evaluate e) pop), r')).
  { unfold reproduce. cbn [config evaluate set_population_fitness] in *.
    now rewrite (bind_Return _ _ _ _ _ Hpop). }
  exists (set_population (evaluate e) pop), r'. split; [exact Hrep |].
  apply (reproduce_population (evaluate e) len) in Hrep as (_ & _ & Hok);
    [exact Hok | | assumption | assumption].
  cbn [config evaluate set_population_fitness]. lia.
Qed.

End ReproductionReturns.

(** ** A run that never meets the termination condition *)

Section Exhaustion.

Context {G : Type}.

Lemma simulate_loop_exhausts : forall (iterations : nat) (e : Engine G)
    (acc : RunResult G) (recorded : nat) r e' r',
  1 <= pop_size e ->
  population e <> [] ->
  generations_recorded acc recorded ->
  generations iterations e r = (Return e', r') ->
  (forall j ej rj, (j < iterations)%nat -> generations j e r = (Return ej, rj) ->
                   termination_met (evaluate ej) = false) ->
  exists result,
    simulate_loop iterations e acc r = (Return (result, e'), r') /\
    generations_recorded result (recorded + iterations).
Proof.
  induction iterations as [| n IH];
    intros e acc recorded r e' r' Hsize Hpop Hacc Hgen Hnever; simpl in Hgen.
  - inversion Hgen; subst. exists acc. rewrite Nat.add_0_r. now split.
  - apply bind_inv in Hgen as (e1 & r1 & Hrep & Hgen).
    destruct (metrics_total e Hpop) as (m & Hm).
    assert (Hnot : termination_met (evaluate e) = false)
      by (apply (Hnever 0%nat e r); [lia | reflexivity]).
    destruct (reproduce_nonempty (evaluate e) _ _ _ Hsize Hrep) as [Hcfg Hpop1].
    cbn [config evaluate set_population_fitness] in Hcfg.
    destruct (IH e1 (record_metrics acc m) (S recorded) r1 e' r')
      as (result & Hloop & Hrec); try assumption.
    + rewrite Hcfg. exact Hsize.
    + now apply record_metrics_recorded.
    + intros j ej rj Hj Hgj. apply (Hnever (S j) ej rj); [lia |].
      simpl. now rewrite (bind_Return _ _ _ _ _ Hrep).
    + exists result. split.
      * cbn [simulate_loop]. rewrite Hm. unfold bind at 1, lift.
        rewrite Hnot. now rewrite (bind_Return _ _ _ _ _ Hrep).
      * replace (recorded + S n)%nat with (S recorded + n)%nat by lia.
        assumption.
Qed.

(** Without a generation that meets the termination condition the run
    records [max_iter] generations, and a reproduction follows each of them,
    the last one included. *)
Lemma simulate_runs_max_iter (e : Engine G) (silent : bool) r e' r' :
  1 <= pop_size e ->
  population e <> [] ->
  generations (Z.to_nat (max_iter e)) e r = (Return e', r') ->
  (forall j ej rj, (j < Z.to_nat (max_iter e))%nat ->
                   generations j e r = (Return ej, rj) ->
                   termination_met (evaluate ej) = false) ->
  exists result,
    simulate e silent r = (Return (result, e'), r') /\
    generations_recorded result (Z.to_nat (max_iter e)).
Proof.
  intros Hsize Hpop Hgen Hnever.
  destruct (simulate_loop_exhausts (Z.to_nat (max_iter e)) e empty_result 0
              r e' r' Hsize Hpop) as (result & Hrun & Hrec);
    try assumption; [repeat split |].
  now exists result.
Qed.

End Exhaustion.

(** ** What roulette selection hands over *)

Section RouletteParents.

Context {G : Type}.

(** Two bound slots of the walk always hold one and the same individual: a
    slot bound earlier is bound again at the position that binds the other. *)
Lemma roulette_walk_coincide (fitness : list Z) (t1 t2 : Z) :
  forall (rest : list (Individual G)) index total p1 p2 q1 q2,
    (p1 <> None -> t1 <= total) ->
    (p2 <> None -> t2 <= total) ->
    p1 = None \/ p2 = None \/ p1 = p2 ->
    roulette_walk fitness t1 t2 rest index total p1 p2 = Return (q1, q2) ->
    q1 = None \/ q2 = None \/ q1 = q2.
Proof.
  induction rest as [| individual rest IH];
    intros index total p1 p2 q1 q2 H1 H2 Hsame H; simpl in H.
  - now inversion H; subst.
  - destruct (py_getitem fitness index) as [f |]; [| discriminate].
    cbn [obind] in H. pose proof (Z.abs_nonneg f) as Habs.
    remember (if total + Z.abs f >=? t1 then Some individual else p1) as s1 eqn:E1.
    remember (if total + Z.abs f >=? t2 then Some individual else p2) as s2 eqn:E2.
    assert (K1 : s1 <> None -> t1 <= total + Z.abs f).
    { rewrite E1. destruct (Z.geb_spec (total + Z.abs f) t1); [lia |].
      intros Hp. specialize (H1 Hp). lia. }
    assert (K2 : s2 <> None -> t2 <= total + Z.abs f).
    { rewrite E2. destruct (Z.geb_spec (total + Z.abs f) t2); [lia |].
      intros Hp. specialize (H2 Hp). lia. }
    assert (Ksame : s1 = None \/ s2 = None \/ s1 = s2).
    { rewrite E1, E2.
      destruct (Z.geb_spec (total + Z.abs f) t1);
        destruct (Z.geb_spec (total + Z.abs f) t2); auto.
      - destruct p2; [| auto]. specialize (H2 ltac:(discriminate)). lia.
      - destruct p1; [| auto]. specialize (H1 ltac:(discriminate)). lia. }
    destruct (negb (is_None s1 || is_None s2)).
    + now inversion H; subst.
    + exact (IH _ _ _ _ _ _ K1 K2 Ksame H).
Qed.

Lemma roulette_walk_same_member (e : Engine G) (t1 t2 : Z)
    (parent_1 parent_2 : Individual G) :
  roulette_walk (population_fitness e) t1 t2 (population e) 0 0 None None
    = Return (Some parent_1, Some parent_2) ->
  parent_1 = parent_2 /\ In parent_1 (population e).
Proof.
  intros Hwalk. split.
  - apply roulette_walk_coincide in Hwalk as [K | [K | K]];
      try discriminate; try congruence; auto.
  - apply (roulette_walk_slots (fun x => In x (population e))) in Hwalk
      as [K _]; [exact K | now apply Forall_forall | exact I | exact I].
Qed.

(** The two parents that roulette selection returns are one individual of
    the population, whatever the two targets drawn. *)
Theorem roulette_parents_coincide (e : Engine G) (total_fitness : Z)
    (r r' : RandomState) (parent_1 parent_2 : Individual G) :
  roulette e total_fitness r = (Return (Some parent_1, Some parent_2), r') ->
  parent_1 = parent_2 /\ In parent_1 (population e).
Proof.
  intros H. unfold roulette in H. apply bind_inv in H as (ts & r1 & _ & H).
  destruct ts as [| t1 [| t2 [| ? ?]]]; try discriminate.
  unfold lift in H. inversion H as [[Hwalk Hr]].
  exact (roulette_walk_same_member e t1 t2 parent_1 parent_2 Hwalk).
Qed.

Lemma prefix_suffix_same {A : Type} (l : list A) (i : Z) :
  py_prefix l i ++ py_suffix l i = l.
Proof. unfold py_prefix, py_suffix. apply firstn_skipn. Qed.

(** With the built-in crossover and a mutation rate of 0.0, an offspring
    selected by roulette is a copy of a member of the population, so a
    reproduction step only copies members of the old population. *)
Theorem roulette_reproduction_copies (e : Engine G) (f0 : Z) (rest : list Z)
    (r r' : RandomState) (e' : Engine G) :
  individual_viability_check e = false ->
  (mutation_rate e == 0)%Q ->
  population_fitness e = f0 :: rest ->
  0 <= f0 ->
  reproduce e r = (Return e', r') ->
  incl (population e') (population e).
Proof.
  intros Hcheck Hrate Hfit Hf0 H. unfold reproduce in H.
  apply bind_inv in H as (pop & r1 & Hrep & H). inversion H; subst e' r1.
  cbn [population set_population].
  apply (replicateM_inv (fun child => In child (population e))) in Hrep
    as [_ Hall]; [rewrite Forall_forall in Hall; exact Hall |].
  intros r0 child r0' Hchild. unfold produce_offspring in Hchild.
  apply bind_inv in Hchild as ([q1 q2] & r2 & Hsel & Hchild).
  apply bind_inv in Hchild as (c0 & r3 & Hcross & Hmut).
  unfold mutation in Hmut. rewrite (mutation_loop_rate_zero e Hrate) in Hmut.
  inversion Hmut; subst child r0'.
  assert (Hroulette : roulette e (np_sum (population_fitness e)) r0
                      = (Return (q1, q2), r2)).
  { assert (Hgate : select_parents e (np_sum (population_fitness e)) 0
                      = if f0 >=? 0
                        then roulette e (np_sum (population_fitness e))
                        else tournament e).
    { unfold select_parents. rewrite Hfit at 1. reflexivity. }
    rewrite Hgate in Hsel.
    destruct (Z.geb_spec f0 0); [exact Hsel | lia]. }
  cbn [fst snd] in Hcross. unfold crossover in Hcross. rewrite Hcheck in Hcross.
  unfold breakpoint_crossover in Hcross.
  destruct q1 as [p1 |]; [| discriminate].
  apply bind_inv in Hcross as (bp & r4 & _ & Hcross).
  apply bind_inv in Hcross as (u & r5 & _ & Hcross).
  destruct q2 as [p2 |]; [| discriminate].
  unfold roulette in Hroulette.
  apply bind_inv in Hroulette as (ts & r6 & _ & Hroulette).
  destruct ts as [| t1 [| t2 [| ? ?]]]; try discriminate.
  unfold lift in Hroulette. inversion Hroulette as [[Hwalk Hr]].
  apply roulette_walk_same_member in Hwalk as [<- Hin].
  rewrite !prefix_suffix_same in Hcross.
  destruct (Qltb u (1 # 2)); inversion Hcross; now subst.
Qed.

End RouletteParents.

(** ** What the tournament hands over *)

Section TournamentTopTwo.

Variable fitness : list Z.

Local Abbreviation fit i := (nth (Z.to_nat i) fitness 0).

Local Abbreviation in_range := (fun i => 0 <= i < Z.of_nat (length fitness)).

Lemma tournament_step_read m1 m2 p :
  in_range m1 -> in_range m2 -> in_range p ->
  tournament_step fitness (Some m1, Some m2) p
    = Return (if fit p >? fit m1 then (Some p, Some m1)
              else if fit p >? fit m2 then (Some m1, Some p)
                   else (Some m1, Some m2)).
Proof.
  intros H1 H2 Hp. unfold tournament_step.
  rewrite (py_getitem_nth 0 fitness p Hp), (py_getitem_nth 0 fitness m1 H1).
  cbn [obind]. destruct (_ >? _); [reflexivity |].
  rewrite (py_getitem_nth 0 fitness m2 H2). cbn [obind].
  destruct (_ >? _); reflexivity.
Qed.

Lemma tournament_scan_top_two_from : forall participants m1 m2 seen a b,
  Forall in_range participants -> in_range m1 -> in_range m2 ->
  fit m2 <= fit m1 ->
  Forall (fun p => fit p <= fit m2) seen ->
  tournament_scan fitness participants (Some m1, Some m2)
    = Return (Some a, Some b) ->
  exists others,
    Permutation (m1 :: m2 :: seen ++ participants) (a :: b :: others) /\
    fit b <= fit a /\ Forall (fun p => fit p <= fit b) others.
Proof.
  induction participants as [| p ps IH];
    intros m1 m2 seen a b Hps H1 H2 Hle Hseen H; cbn [tournament_scan] in H.
  - inversion H; subst. exists seen. rewrite app_nil_r. now repeat split.
  - inversion Hps as [| ? ? Hp Hps']; subst.
    rewrite (tournament_step_read m1 m2 p H1 H2 Hp) in H. cbn [obind] in H.
    destruct (Z.gtb_spec (fit p) (fit m1)) as [Hgt1 | Hle1].
    + destruct (IH p m1 (m2 :: seen) a b Hps' Hp H1 ltac:(lia)) as (others & Hperm & K);
        [| exact H |].
      { constructor; [lia |]. eapply Forall_impl; [| exact Hseen].
        simpl. intros; lia. }
      exists others. split; [| exact K].
      rewrite <- Hperm. simpl.
      rewrite <- Permutation_middle.
      rewrite (perm_swap p m2 (seen ++ ps)). rewrite (perm_swap p m1 _).
      reflexivity.
    + destruct (Z.gtb_spec (fit p) (fit m2)) as [Hgt2 | Hle2].
      * destruct (IH m1 p (m2 :: seen) a b Hps' H1 Hp ltac:(lia)) as (others & Hperm & K);
          [| exact H |].
        { constructor; [lia |]. eapply Forall_impl; [| exact Hseen].
          simpl. intros; lia. }
        exists others. split; [| exact K].
        rewrite <- Hperm. simpl.
        rewrite <- Permutation_middle.
        rewrite (perm_swap p m2 (seen ++ ps)). reflexivity.
      * destruct (IH m1 m2 (p :: seen) a b Hps' H1 H2 Hle) as (others & Hperm & K);
          [| exact H |].
        { constructor; assumption. }
        exists others. split; [| exact K].
        rewrite <- Hperm. simpl. now rewrite <- Permutation_middle.
Qed.

(** Best two of the draws: the indices the scan ends with are two of the
    drawn participants, counted with their repetitions, and no other
    participant has a fitness above that of the runner-up, which is itself
    not above that of the best. *)
Theorem tournament_scan_top_two (participants : list Z) (max_1 max_2 : Z) :
  Forall (fun p => 0 <= p < Z.of_nat (length fitness)) participants ->
  tournament_scan fitness participants (None, None)
    = Return (Some max_1, Some max_2) ->
  exists others,
    Permutation participants (max_1 :: max_2 :: others) /\
    nth (Z.to_nat max_2) fitness 0 <= nth (Z.to_nat max_1) fitness 0 /\
    Forall (fun p => nth (Z.to_nat p) fitness 0 <= nth (Z.to_nat max_2) fitness 0)
           others.
Proof.
  intros Hps H.
  destruct participants as [| p [| q ps]];
    cbn [tournament_scan tournament_step obind] in H; try discriminate.
  inversion Hps as [| ? ? Hp Hps']; subst.
  inversion Hps' as [| ? ? Hq Hps'']; subst.
  rewrite (py_getitem_nth 0 fitness q Hq), (py_getitem_nth 0 fitness p Hp) in H.
  cbn [obind] in H.
  destruct (Z.gtb_spec (nth (Z.to_nat q) fitness 0) (nth (Z.to_nat p) fitness 0))
    as [Hgt | Hle]; cbn [obind] in H.
  - destruct (tournament_scan_top_two_from ps q p [] max_1 max_2 Hps'' Hq Hp)
      as (others & Hperm & K); try exact H; [lia | constructor |].
    exists others. split; [| exact K]. rewrite <- Hperm. apply perm_swap.
  - destruct (tournament_scan_top_two_from ps p q [] max_1 max_2 Hps'' Hp Hq)
      as (others & Hperm & K); try exact H; [lia | constructor |].
    exists others. split; [| exact K]. now rewrite <- Hperm.
Qed.

End TournamentTopTwo.

(** ** The recorded series *)

Section RecordedSeries.

Context {G : Type}.

Lemma fold_max_spec (t : list Z) : forall b,
  b <= fold_left Z.max t b /\
  Forall (fun x => x <= fold_left Z.max t b) t /\
  (fold_left Z.max t b = b \/ In (fold_left Z.max t b) t).
Proof.
  induction t as [| x t IH]; intros b; simpl.
  - repeat split; [lia | constructor | now left].
  - destruct (IH (Z.max b x)) as (H1 & H2 & H3). repeat split.
    + lia.
    + constructor; [lia | assumption].
    + destruct H3 as [H3 | H3]; [| now right; right].
      rewrite H3. destruct (Z.max_spec b x) as [[_ ->] | [_ ->]]; auto.
Qed.

Lemma fold_min_spec (t : list Z) : forall b,
  fold_left Z.min t b <= b /\
  Forall (fun x => fold_left Z.min t b <= x) t.
Proof.
  induction t as [| x t IH]; intros b; simpl.
  - split; [lia | constructor].
  - destruct (IH (Z.min b x)) as (H1 & H2). split; [lia |].
    constructor; [lia | assumption].
Qed.

Lemma argmax_from_spec (t : list Z) : forall pre best_i best,
  0 <= best_i < Z.of_nat (length pre) ->
  nth (Z.to_nat best_i) pre 0 = best ->
  nth (Z.to_nat (argmax_from t (Z.of_nat (length pre)) best_i best)) (pre ++ t) 0
    = fold_left Z.max t best.
Proof.
  induction t as [| x t IH]; intros pre best_i best Hi Hbest; simpl.
  - rewrite app_nil_r. exact Hbest.
  - replace (Z.of_nat (length pre) + 1) with (Z.of_nat (length (pre ++ [x])))
      by (rewrite length_app; simpl; lia).
    replace (pre ++ x :: t) with ((pre ++ [x]) ++ t)
      by (now rewrite <- app_assoc).
    destruct (Z.gtb_spec x best) as [Hgt | Hle].
    + rewrite Z.max_r by lia. apply IH.
      * rewrite length_app. simpl. lia.
      * rewrite Nat2Z.id, app_nth2, Nat.sub_diag by lia. reflexivity.
    + rewrite Z.max_l by lia. apply IH.
      * rewrite length_app. simpl. lia.
      * rewrite app_nth1 by lia. exact Hbest.
Qed.

(** The best individual and the two extreme values recorded for a
    generation agree with one another. *)
Lemma metrics_agree (e : Engine G) (m : Metrics G) :
  metrics (evaluate e) = Return m ->
  fitness_function e (actual_best_individual m)
    = actual_best_individual_fitness m /\
  actual_worst_individual_fitness m <= actual_best_individual_fitness m.
Proof.
  unfold metrics, evaluate.
  cbn [population_fitness population set_population_fitness config].
  destruct (population e) as [| ind pop]; [discriminate |].
  set (fit := fitness_function e).
  cbn [map np_max np_min np_argmax obind].
  pose proof (argmax_from_range (map fit pop) 1 0 (fit ind) ltac:(lia)) as Hr.
  rewrite length_map in Hr.
  rewrite (py_getitem_nth ind) by (simpl length; lia).
  cbn [obind]. intros H. inversion H; subst m.
  cbn [actual_best_individual actual_best_individual_fitness
       actual_worst_individual_fitness].
  destruct (fold_max_spec (map fit pop) (fit ind)) as (Hb & _ & _).
  destruct (fold_min_spec (map fit pop) (fit ind)) as (Hw & _).
  split; [| lia].
  pose proof (argmax_from_spec (map fit pop) [fit ind] 0 (fit ind)
                ltac:(simpl; lia) eq_refl) as Harg.
  change (Z.of_nat (length [fit ind])) with 1 in Harg.
  rewrite <- Harg.
  change ([fit ind] ++ map fit pop) with (map fit (ind :: pop)).
  rewrite (nth_indep _ 0 (fit ind)) by (rewrite length_map; simpl length; lia).
  now rewrite map_nth.
Qed.

Lemma reproduce_config (e : Engine G) r e' r' :
  reproduce e r = (Return e', r') -> config e' = config e.
Proof.
  unfold reproduce. intros H. apply bind_inv in H as (pop & r1 & _ & H).
  now inversion H.
Qed.

Lemma record_metrics_consistent (fit : Individual G -> Z) acc m :
  records_consistent fit acc ->
  fit (actual_best_individual m) = actual_best_individual_fitness m ->
  actual_worst_individual_fitness m <= actual_best_individual_fitness m ->
  records_consistent fit (record_metrics acc m).
Proof.
  intros (A1 & A2) H1 H2.
  unfold records_consistent, record_metrics. simpl.
  split; apply Forall2_app; auto.
Qed.

Lemma simulate_loop_consistent : forall iterations (e : Engine G) acc n r
    result e' r',
  generations_recorded acc n ->
  records_consistent (fitness_function e) acc ->
  simulate_loop iterations e acc r = (Return (result, e'), r') ->
  config e' = config e /\
  records_consistent (fitness_function e) result /\
  exists n', generations_recorded result n' /\ (n <= n' <= n + iterations)%nat
             /\ (iterations <> 0 -> n < n')%nat.
Proof.
  induction iterations as [| iterations IH];
    intros e acc n r result e' r' Hrec Hcons H; cbn [simulate_loop] in H.
  - inversion H; subst. split; [reflexivity | split; [assumption |]].
    exists n. split; [assumption | lia].
  - apply bind_inv in H as (m & r1 & Hm & H).
    unfold lift in Hm. inversion Hm as [[Hm' Hr]]. subst r1.
    destruct (metrics_agree e m Hm') as (M1 & M2).
    pose proof (record_metrics_consistent _ acc m Hcons M1 M2) as Hcons'.
    pose proof (record_metrics_recorded acc m n Hrec) as Hrec'.
    destruct (termination_met (evaluate e)).
    + inversion H; subst. split; [reflexivity | split; [assumption |]].
      exists (S n). split; [assumption | lia].
    + apply bind_inv in H as (e2 & r2 & Hrep & H).
      apply reproduce_config in Hrep. cbn [config evaluate set_population_fitness] in Hrep.
      apply (IH e2 _ (S n)) in H as (Hcfg & Hc & n' & Hn' & Hle & _);
        [| assumption | now rewrite Hrep].
      rewrite Hrep in Hcfg, Hc. split; [assumption | split; [assumption |]].
      exists n'. split; [assumption | lia].
Qed.

(** In non-viable mode, where every child is a list of its own, every run
    that returns with extreme fitness values that NumPy holds as [int64]
    (then every fitness value of the run is one) leaves four series of one
    length, between 1 and [max_iter] (0 when [max_iter] is not positive);
    generation by generation the recorded best individual has the recorded
    best fitness and the recorded worst fitness is not above it; the engine
    keeps its configuration. *)
Theorem simulate_records_consistent (e : Engine G) (silent : bool)
    (r r' : RandomState) (result : RunResult G) (e' : Engine G) :
  individual_viability_check e = false ->
  simulate e silent r = (Return (result, e'), r') ->
  Forall int64_range (best_individual_data result) ->
  Forall int64_range (worst_individual_data result) ->
  config e' = config e /\
  records_consistent (fitness_function e) result /\
  exists n, generations_recorded result n /\
            (n <= Z.to_nat (max_iter e))%nat /\
            (1 <= max_iter e -> (1 <= n)%nat).
Proof.
  intros _ H _ _. unfold simulate in H.
  apply (simulate_loop_consistent _ e empty_result 0%nat) in H
    as (Hcfg & Hcons & n & Hn & Hle & Hpos).
  - split; [assumption | split; [assumption |]].
    exists n. split; [assumption | lia].
  - repeat split.
  - repeat split; constructor.
Qed.

End RecordedSeries.

(** ** Edge cases of a run and of a reproduction step *)

Section EdgeCases.

Context {G : Type}.

(** A configuration with [pop_size <= 0] is accepted by the constructor,
    which calls no factory and leaves an empty population; the first
    generation of a run then fails on [np.max] of the empty fitness vector
    with [ValueError]. *)
Theorem simulate_empty_population_raises (c : Config G) (silent : bool)
    (r r' : RandomState) (e : Engine G) :
  pop_size c <= 0 ->
  1 <= max_iter c ->
  init c r = (Return e, r') ->
  population e = [] /\ r' = r /\
  simulate e silent r' = (Raise ValueError, r').
Proof.
  intros Hsize Hiter Hinit.
  apply init_population in Hinit as (Hcfg & _ & Hrep).
  replace (Z.to_nat (pop_size c)) with 0%nat in Hrep by lia.
  cbn [replicateM] in Hrep. unfold ret in Hrep. inversion Hrep as [[Hpop Hr]].
  split; [reflexivity | split; [reflexivity |]].
  unfold simulate. rewrite Hcfg.
  destruct (Z.to_nat (max_iter c)) as [| n] eqn:En; [lia |].
  cbn [simulate_loop]. unfold metrics, evaluate.
  cbn [population_fitness population set_population_fitness].
  rewrite <- Hpop. reflexivity.
Qed.

(** On an evaluated population of the right shape whose absolute fitness
    values sum to less than 2^63 (so that [np.sum], an [int64] sum, is the
    exact sum and every number of the walk is an [int64]), a reproduction
    step returns exactly when the draw of its selection is defined: the
    first fitness is negative (tournament) or the total fitness is positive
    (roulette); otherwise it raises [ValueError] before any draw. *)
Theorem reproduce_returns_iff (e : Engine G) (len : nat) (f0 : Z)
    (rest : list Z) (r : RandomState) :
  population_ok e len (population e) ->
  length_contracts e len ->
  (individual_viability_check e = true ->
   viable_crossover e <> None /\ viable_mutation e <> None) ->
  (individual_viability_check e = false -> (3 <= len)%nat) ->
  population_fitness (evaluate e) = f0 :: rest ->
  int64_range (np_sum (map Z.abs (population_fitness (evaluate e)))) ->
  ((exists e' r', reproduce (evaluate e) r = (Return e', r'))
   <-> f0 < 0 \/ 0 < np_sum (population_fitness (evaluate e))) /\
  (~ (f0 < 0 \/ 0 < np_sum (population_fitness (evaluate e))) ->
   reproduce (evaluate e) r = (Raise ValueError, r)).
Proof.
  intros Hok Hcontracts Hbundle Hlen3 Hfit _.
  assert (Hraise : ~ (f0 < 0 \/ 0 < np_sum (population_fitness (evaluate e))) ->
                   reproduce (evaluate e) r = (Raise ValueError, r)).
  { intros Hnot. unfold reproduce. apply bind_Raise.
    apply replicateM_Raise.
    - intros r0. unfold produce_offspring. apply bind_Raise.
      assert (Hgate : select_parents (evaluate e)
                        (np_sum (population_fitness (evaluate e))) 0
                      = if f0 >=? 0
                        then roulette (evaluate e)
                               (np_sum (population_fitness (evaluate e)))
                        else tournament (evaluate e)).
      { unfold select_parents. rewrite Hfit at 1. reflexivity. }
      rewrite Hgate. destruct (Z.geb_spec f0 0); [| lia].
      apply roulette_empty_range. lia.
    - destruct Hok as [Hsize _].
      assert (Hlen : length (population_fitness (evaluate e))
                     = length (population e)).
      { unfold evaluate. cbn [population_fitness set_population_fitness].
        apply length_map. }
      rewrite Hfit in Hlen. cbn [length] in Hlen.
      cbn [config evaluate set_population_fitness]. lia. }
  split; [| exact Hraise]. split.
  - intros (e' & r' & Hrep).
    destruct (Z.lt_ge_cases f0 0) as [| Hf0]; [now left |].
    destruct (Z.lt_ge_cases 0 (np_sum (population_fitness (evaluate e))))
      as [| Hsum]; [now right |].
    rewrite Hraise in Hrep by lia. discriminate.
  - intros Hcase.
    destruct (reproduce_returns e len f0 rest r Hok Hcontracts Hbundle Hlen3
                Hfit Hcase) as (e' & r' & Hrep & _).
    eauto.
Qed.

End EdgeCases.

(** ** Where the genes of an offspring come from *)

Section Inheritance.

Context {G : Type}.

Lemma splice_nth_error {A : Type} (a b : list A) (n i : nat) :
  (n <= length a)%nat ->
  nth_error (firstn n a ++ skipn n b) i
    = if (i <? n)%nat then nth_error a i else nth_error b i.
Proof.
  intros Hn. destruct (Nat.ltb_spec i n) as [Hlt | Hge].
  - rewrite nth_error_app1 by (rewrite firstn_length_le; lia).
    rewrite nth_error_firstn.
    destruct (Nat.ltb_spec i n); [reflexivity | lia].
  - rewrite nth_error_app2 by (rewrite firstn_length_le; lia).
    rewrite firstn_length_le, nth_error_skipn by lia. f_equal. lia.
Qed.

(** The built-in crossover of two parents of one length takes the first
    gene of the child from one parent and its last two genes from the other:
    the breakpoint is drawn from [[1, len-1)] and never separates the last
    two positions. *)
Theorem breakpoint_keeps_last_two_genes (e : Engine G)
    (parent_1 parent_2 child : Individual G) (r r' : RandomState) :
  individual_viability_check e = false ->
  length parent_1 = length parent_2 ->
  crossover e (Some parent_1) (Some parent_2) r = (Return child, r') ->
  exists head tail,
    ((head = parent_1 /\ tail = parent_2) \/
     (head = parent_2 /\ tail = parent_1)) /\
    nth_error child 0 = nth_error head 0 /\
    forall i, (length parent_1 - 2 <= i)%nat ->
              nth_error child i = nth_error tail i.
Proof.
  intros Hcheck Hlen H. unfold crossover in H. rewrite Hcheck in H.
  unfold breakpoint_crossover in H.
  apply bind_inv in H as (bp & r1 & Hbp & H).
  apply randint_range in Hbp as [Hbp _].
  apply bind_inv in H as (u & r2 & _ & H).
  rewrite !py_prefix_firstn, !py_suffix_skipn in H by lia.
  destruct (Qltb u (1 # 2)); inversion H; subst child;
    [exists parent_1, parent_2 | exists parent_2, parent_1];
    (split; [tauto |]); split.
  - rewrite splice_nth_error by lia.
    destruct (Nat.ltb_spec 0 (Z.to_nat bp)); [reflexivity | lia].
  - intros i Hi. rewrite splice_nth_error by lia.
    destruct (Nat.ltb_spec i (Z.to_nat bp)); [lia | reflexivity].
  - rewrite splice_nth_error by lia.
    destruct (Nat.ltb_spec 0 (Z.to_nat bp)); [reflexivity | lia].
  - intros i Hi. rewrite splice_nth_error by lia.
    destruct (Nat.ltb_spec i (Z.to_nat bp)); [lia | reflexivity].
Qed.

(** With the built-in crossover and a mutation rate of 0.0, whichever
    selection is used, every gene of an offspring sits at the same position
    in some member of the population: selection and crossover invent no
    gene. *)
Theorem offspring_genes_inherited (e : Engine G) (len : nat)
    (total_fitness mode : Z) (r r' : RandomState) (child : Individual G) :
  individual_viability_check e = false ->
  (mutation_rate e == 0)%Q ->
  Forall (fun ind => length ind = len) (population e) ->
  produce_offspring e total_fitness mode r = (Return child, r') ->
  length child = len /\
  forall i g, nth_error child i = Some g ->
              exists ind, In ind (population e) /\ nth_error ind i = Some g.
Proof.
  intros Hcheck Hrate Hall H. unfold produce_offspring in H.
  apply bind_inv in H as ([q1 q2] & r1 & Hsel & H).
  apply bind_inv in H as (c0 & r2 & Hcross & Hmut).
  unfold mutation in Hmut. rewrite (mutation_loop_rate_zero e Hrate) in Hmut.
  inversion Hmut; subst child r'. clear Hmut.
  assert (Hmembers : Forall (fun ind => In ind (population e) /\ length ind = len)
                            (population e)).
  { rewrite Forall_forall in *. auto. }
  apply (select_parents_slots _ e _ _ _ _ _ _ Hmembers) in Hsel as [K1 K2].
  cbn [fst snd] in Hcross. unfold crossover in Hcross. rewrite Hcheck in Hcross.
  unfold breakpoint_crossover in Hcross.
  destruct q1 as [p1 |]; [| discriminate]. destruct K1 as [Hin1 Hlen1].
  apply bind_inv in Hcross as (bp & r3 & Hbp & Hcross).
  apply randint_range in Hbp as [Hbp _].
  apply bind_inv in Hcross as (u & r4 & _ & Hcross).
  destruct q2 as [p2 |]; [| discriminate]. destruct K2 as [Hin2 Hlen2].
  rewrite !py_prefix_firstn, !py_suffix_skipn in Hcross by lia.
  destruct (Qltb u (1 # 2)); inversion Hcross; subst c0; split;
    try (rewrite splice_length; lia);
    intros i g Hg; rewrite splice_nth_error in Hg by lia;
    destruct (i <? Z.to_nat bp)%nat; eauto.
Qed.

End Inheritance.

(** ** The fields no method reads *)

Section Unused.

Context {G : Type}.

Variable gf : Gen G.
Variable cond : option (Individual G -> bool).

Lemma replicateM_ext {A : Type} (c1 c2 : M A) :
  (forall r, c1 r = c2 r) ->
  forall n r, replicateM n c1 r = replicateM n c2 r.
Proof.
  intros Hc. induction n as [| n IH]; intros r; [reflexivity |].
  cbn [replicateM]. unfold bind. rewrite Hc.
  destruct (c2 r) as [[a | x] r1]; [| reflexivity]. now rewrite IH.
Qed.

Lemma mutation_loop_unused (e : Engine G) : forall n i child r,
  mutation_loop (with_unused e gf cond) n i child r = mutation_loop e n i child r.
Proof.
  induction n as [| n IH]; intros i child r; [reflexivity |].
  cbn [mutation_loop]. unfold bind at 1 3.
  destruct (random r) as [[u | x] r1]; [| reflexivity].
  change (mutation_rate (with_unused e gf cond)) with (mutation_rate e).
  change (mutate_gene_at (with_unused e gf cond) child i)
    with (mutate_gene_at e child i).
  unfold bind.
  destruct ((if Qltb u (mutation_rate e) then mutate_gene_at e child i
             else ret child) r1) as [[c | x] r2]; [apply IH | reflexivity].
Qed.

Lemma produce_offspring_unused (e : Engine G) total_fitness mode r :
  produce_offspring (with_unused e gf cond) total_fitness mode r
    = produce_offspring e total_fitness mode r.
Proof.
  unfold produce_offspring.
  change (select_parents (with_unused e gf cond) total_fitness mode)
    with (select_parents e total_fitness mode).
  unfold bind at 1 3.
  destruct (select_parents e total_fitness mode r) as [[parents | x] r1];
    [| reflexivity].
  change (crossover (with_unused e gf cond) (fst parents) (snd parents))
    with (crossover e (fst parents) (snd parents)).
  unfold bind.
  destruct (crossover e (fst parents) (snd parents) r1) as [[c | x] r2];
    [| reflexivity].
  apply mutation_loop_unused.
Qed.

Lemma reproduce_unused (e : Engine G) r :
  reproduce (with_unused e gf cond) r
    = match reproduce e r with
      | (Return e', r') => (Return (with_unused e' gf cond), r')
      | (Raise x, r') => (Raise x, r')
      end.
Proof.
  unfold reproduce.
  change (pop_size (with_unused e gf cond)) with (pop_size e).
  change (population_fitness (with_unused e gf cond)) with (population_fitness e).
  unfold bind.
  rewrite (replicateM_ext _ (produce_offspring e (np_sum (population_fitness e)) 0)
             (fun r0 => produce_offspring_unused e _ 0 r0)).
  destruct (replicateM _ _ r) as [[pop | x] r1]; reflexivity.
Qed.

Lemma simulate_loop_unused : forall iterations (e : Engine G) acc r,
  simulate_loop iterations (with_unused e gf cond) acc r
    = match simulate_loop iterations e acc r with
      | (Return (result, e'), r') => (Return (result, with_unused e' gf cond), r')
      | (Raise x, r') => (Raise x, r')
      end.
Proof.
  induction iterations as [| n IH]; intros e acc r; [reflexivity |].
  cbn [simulate_loop].
  change (evaluate (with_unused e gf cond)) with (with_unused (evaluate e) gf cond).
  change (metrics (with_unused (evaluate e) gf cond)) with (metrics (evaluate e)).
  change (termination_met (with_unused (evaluate e) gf cond))
    with (termination_met (evaluate e)).
  unfold bind at 1 3, lift.
  destruct (metrics (evaluate e)) as [m | x]; [| reflexivity].
  destruct (termination_met (evaluate e)); [reflexivity |].
  unfold bind. rewrite reproduce_unused.
  destruct (reproduce (evaluate e) r) as [[e2 | x] r2]; [apply IH | reflexivity].
Qed.

(** No method reads [gene_factory] or [individual_viability_condition]
    once they are stored: with any other values in these two fields a run
    draws the same numbers, records the same series and ends with the same
    population, or raises the same error.  In particular the engine never
    tests the viability of an individual itself. *)
Theorem simulate_ignores_unused_fields (e : Engine G) (silent : bool)
    (r : RandomState) :
  simulate (with_unused e gf cond) silent r
    = match simulate e silent r with
      | (Return (result, e'), r') => (Return (result, with_unused e' gf cond), r')
      | (Raise x, r') => (Raise x, r')
      end.
Proof. unfold simulate. apply simulate_loop_unused. Qed.

End Unused.

(** ** A mutation pass at any rate *)

Section MutationPass.

Context {G : Type}.

Lemma mutation_loop_pointwise (e : Engine G) (f : G -> G) :
  individual_viability_check e = false ->
  (forall g r, mutate e g r = (f g, r)) ->
  forall todo done r,
    exists todo',
      mutation_loop e (length todo) (length done) (done ++ todo) r
        = (Return (done ++ todo'), skip (length todo) r) /\
      Forall2 (fun old new => new = old \/ new = f old) todo todo'.
Proof.
  intros Hcheck Hf. induction todo as [| x todo IH]; intros done r.
  - exists []. split; [| constructor]. simpl. unfold ret. now rewrite skip_zero.
  - cbn [length mutation_loop].
    destruct (random_unit_interval r) as (u & Hu & _).
    rewrite (bind_Return _ _ _ _ _ Hu).
    assert (Hnext : forall y,
              exists todo',
                mutation_loop e (length todo) (S (length done))
                  (done ++ y :: todo) (advance r)
                  = (Return (done ++ y :: todo'), skip (S (length todo)) r) /\
                Forall2 (fun old new => new = old \/ new = f old) todo todo').
    { intros y. destruct (IH (done ++ [y]) (advance r)) as (todo' & Hloop & Hall).
      exists todo'. split; [| exact Hall].
      rewrite length_app, Nat.add_1_r, <- !app_assoc in Hloop. cbn [app] in Hloop.
      now rewrite skip_advance in Hloop. }
    destruct (Qltb u (mutation_rate e)).
    + assert (Hgene : mutate_gene_at e (done ++ x :: todo) (length done) (advance r)
                      = (Return (done ++ f x :: todo), advance r)).
      { unfold mutate_gene_at. rewrite Hcheck, py_getitem_middle.
        cbv [bind lift call]. rewrite Hf, py_setitem_middle. reflexivity. }
      rewrite (bind_Return _ _ _ _ _ Hgene).
      destruct (Hnext (f x)) as (todo' & Hloop & Hall).
      exists (f x :: todo'). split; [exact Hloop | constructor; auto].
    + unfold bind at 1, ret at 1.
      destruct (Hnext x) as (todo' & Hloop & Hall).
      exists (x :: todo'). split; [exact Hloop | constructor; auto].
Qed.

(** At any mutation rate, in non-viable mode with a [mutate] that draws
    nothing, a mutation pass returns, draws one uniform number per gene,
    keeps the length of the child and leaves at each position either the
    gene that was there or its image under [mutate]. *)
Theorem mutation_pass_pointwise (e : Engine G) (f : G -> G)
    (child : Individual G) (r : RandomState) :
  individual_viability_check e = false ->
  (forall g r0, mutate e g r0 = (f g, r0)) ->
  exists child',
    mutation e child r = (Return child', skip (length child) r) /\
    length child' = length child /\
    Forall2 (fun old new => new = old \/ new = f old) child child'.
Proof.
  intros Hcheck Hf.
  destruct (mutation_loop_pointwise e f Hcheck Hf child [] r)
    as (child' & Hloop & Hall).
  exists child'. split; [exact Hloop |]. split; [| exact Hall].
  symmetry. eapply Forall2_length; eauto.
Qed.

End MutationPass.

(** * Runs on concrete engines *)

Section Runs.

Import Examples.

(** C2 on the code: with the fitness vector [2; 3] and the targets 1 and 4,
    the first individual whose cumulative sum reaches the target of the first
    slot is the one at index 0, yet the walk hands over the individual at
    index 1 for both slots: the first slot, bound at index 0, is bound again
    at index 1 while the walk waits for the second slot. *)
Theorem roulette_rebinds_first_parent :
  population_fitness pair = [2; 3] /\
  randint_size 0 5 2 (tape_of [1; 4]%N)
    = (Return [1; 4], skip 2 (tape_of [1; 4]%N)) /\
  first_reaching (population_fitness pair) (population pair) 0 1
    = Some [1; 1; 0] /\
  first_reaching (population_fitness pair) (population pair) 0 4
    = Some [1; 1; 1] /\
  roulette pair 5 (tape_of [1; 4]%N)
    = (Return (Some [1; 1; 1], Some [1; 1; 1]), skip 2 (tape_of [1; 4]%N)).
Proof. repeat split; vm_compute; reflexivity. Qed.

(** C8 fails for parents of two genes: the range of the breakpoint,
    [[1, 1)], is empty, the draw raises [ValueError] and no child is made. *)
Lemma crossover_of_two_genes_raises :
  individual_viability_check pair = false /\
  length [1; 2] = length [3; 4] /\
  (2 <= length [1; 2])%nat /\
  crossover pair (Some [1; 2]) (Some [3; 4]) start_tape
    = (Raise ValueError, start_tape).
Proof. repeat split; vm_compute; reflexivity. Qed.

(** C10 fails on a population whose fitness values are all zero: roulette is
    reached, the draw on the empty range [[0, 0)] raises [ValueError], and
    reproduction ends with that error instead of a fallback choice. *)
Lemma zero_total_fitness_raises :
  population_fitness flat = [0; 0] /\
  np_sum (population_fitness flat) = 0 /\
  produce_offspring flat 0 0 start_tape = (Raise ValueError, start_tape) /\
  reproduce flat start_tape = (Raise ValueError, start_tape).
Proof. repeat split; vm_compute; reflexivity. Qed.


(** Two individuals of three genes, after construction and one
    reproduction, and after a reproduction step on the three individuals of
    [crowd]. *)
Lemma population_invariant_witness :
  (exists e r',
     (e0 <- init (plain 2 1 12 5) ;; generations 1 e0) start_tape = (Return e, r') /\
     population_ok (plain 2 1 12 5) 3 (population e)) /\
  (exists e' r',
     length (population crowd) = 3%nat /\
     reproduce crowd start_tape = (Return e', r') /\
     population_ok (plain 2 1 12 5) 3 (population e')).
Proof.
  destruct (population_invariant (plain 2 1 12 5) 3) as (_ & Hrep & Hgen).
  - vm_compute. discriminate.
  - split; [| split].
    + intros _ r. reflexivity.
    + intros f Hf. discriminate Hf.
    + intros f Hf. discriminate Hf.
  - split.
    + destruct ((e0 <- init (plain 2 1 12 5) ;; generations 1 e0) start_tape)
        as [[e | x] r'] eqn:Hrun.
      * exists e, r'. split; [reflexivity |]. exact (proj2 (Hgen _ _ _ _ Hrun)).
      * vm_compute in Hrun. discriminate Hrun.
    + destruct (reproduce crowd start_tape) as [[e' | x] r'] eqn:Hrun.
      * exists e', r'. split; [reflexivity | split; [reflexivity |]].
        apply (Hrep crowd start_tape e' r'); [reflexivity | | exact Hrun].
        repeat constructor.
      * vm_compute in Hrun. discriminate Hrun.
Defined.

(** [incomplete] is refused and names a capability it lacks; [viable] is
    built. *)
Lemma construction_checks_viability_bundle_witness :
  (exists name,
     init incomplete start_tape = (Raise (NotImplementedError name), start_tape) /\
     missing_capability incomplete name) /\
  (exists e r', init (viable 2 1 12 5) start_tape = (Return e, r') /\
                config e = viable 2 1 12 5).
Proof.
  split.
  - apply (proj1 (construction_checks_viability_bundle incomplete start_tape)).
    + reflexivity.
    + right. left. reflexivity.
  - apply (proj2 (construction_checks_viability_bundle (viable 2 1 12 5)
                     start_tape)).
    right. repeat split; discriminate.
Defined.

(** Offspring of [pair] (first fitness 2) in mode 0 and in mode 1, and of
    [sunk] (first fitness 0) in mode 0. *)
Lemma selection_gate_witness :
  produce_offspring pair 5 0 start_tape = (Return [1; 1; 0], skip 7 start_tape) /\
  produce_offspring pair 5 1 start_tape = (Return [1; 1; 1], skip 13 start_tape) /\
  produce_offspring sunk 5 0 start_tape = (Return [-3; 1; 1], skip 7 start_tape) /\
  exists parents, roulette pair 5 start_tape = (Return parents, skip 2 start_tape).
Proof.
  destruct (selection_gate pair 5 0 2 [3] eq_refl)
    as (Hroulette & _ & _ & Hdraws & _).
  destruct (selection_gate pair 5 1 2 [3] eq_refl) as (_ & Htournament & _).
  destruct (selection_gate sunk 5 0 0 [-1] eq_refl) as (Hzero & _).
  split; [| split; [| split]].
  - rewrite (Hroulette ltac:(split; [reflexivity | lia])).
    vm_compute. reflexivity.
  - rewrite (Htournament ltac:(lia)). vm_compute. reflexivity.
  - rewrite (Hzero ltac:(split; [reflexivity | lia])).
    vm_compute. reflexivity.
  - destruct (roulette pair 5 start_tape) as [[parents | x] r'] eqn:Hrun.
    + exists parents. f_equal. exact (Hdraws _ _ _ Hrun).
    + vm_compute in Hrun. discriminate Hrun.
Defined.

(** The maximum of [trio] drawn first and never again: the runner-up is
    bound all the same. *)
Lemma tournament_binds_runner_up_witness :
  exists max_1 max_2 parent_1 parent_2,
    tournament_scan (population_fitness trio) [2; 0; 0; 0; 0; 0; 0; 0] (None, None)
      = Return (Some max_1, Some max_2) /\
    tournament_parents trio [2; 0; 0; 0; 0; 0; 0; 0]
      = Return (Some parent_1, Some parent_2).
Proof.
  apply (tournament_binds_runner_up trio [2; 0; 0; 0; 0; 0; 0; 0]).
  - reflexivity.
  - reflexivity.
  - repeat constructor; vm_compute; discriminate.
Defined.

(** Index 2 of [trio] is drawn fifth and comes out as the first parent. *)
Lemma tournament_selects_unique_maximum_witness :
  exists parent_2,
    tournament trio (tape_of [1; 4; 0; 3; 2; 1; 1; 1]%N)
      = (Return (Some [5; 5; 5], Some parent_2),
         skip 8 (tape_of [1; 4; 0; 3; 2; 1; 1; 1]%N)).
Proof.
  apply (tournament_selects_unique_maximum trio 2 [1; 1; 0; 0; 2; 1; 1; 1]).
  - reflexivity.
  - reflexivity.
  - split; [vm_compute; split; [discriminate | reflexivity] |].
    intros i Hi Hne. change (length (population_fitness trio)) with 3%nat in Hi.
    assert (Hcases : i = 0 \/ i = 1) by lia.
    destruct Hcases; subst i; vm_compute; reflexivity.
  - vm_compute. reflexivity.
  - simpl. tauto.
Defined.

(** Two parents of five genes. *)
Lemma breakpoint_crossover_spec_witness :
  exists child,
    crossover pair (Some [1; 2; 3; 4; 5]) (Some [6; 7; 8; 9; 10]) start_tape
      = (Return child, advance (advance start_tape)) /\
    length child = 5%nat.
Proof.
  destruct (breakpoint_crossover_spec pair [1; 2; 3; 4; 5] [6; 7; 8; 9; 10]
              start_tape)
    as (bp & u & child & _ & _ & _ & _ & _ & Hchild & _ & Hlen).
  - reflexivity.
  - reflexivity.
  - simpl. lia.
  - exists child. split; assumption.
Defined.


(** [sunk] has a first fitness of 0 and a total fitness of -1. *)
Lemma roulette_without_fallback_witness :
  produce_offspring sunk (-1) 0 start_tape = (Raise ValueError, start_tape) /\
  reproduce sunk start_tape = (Raise ValueError, start_tape).
Proof.
  destruct (roulette_without_fallback sunk (-1) 0 0 [-1] start_tape)
    as [Hproduce Hreproduce].
  - reflexivity.
  - reflexivity.
  - lia.
  - lia.
  - split; [exact Hproduce |]. apply Hreproduce; [vm_compute; discriminate | reflexivity].
Defined.

(** Roulette on [pair] with the targets 1 and 4. *)
Lemma roulette_parents_coincide_witness :
  [1; 1; 1] = [1; 1; 1] /\ In [1; 1; 1] (population pair).
Proof.
  apply (roulette_parents_coincide pair 5 (tape_of [1; 4]%N)
           (skip 2 (tape_of [1; 4]%N)) [1; 1; 1] [1; 1; 1]).
  vm_compute. reflexivity.
Defined.

(** A reproduction step of [pair], whose mutation rate is 0. *)
Lemma roulette_reproduction_copies_witness :
  exists e' r',
    reproduce pair start_tape = (Return e', r') /\
    incl (population e') (population pair).
Proof.
  destruct (reproduce pair start_tape) as [[e' | x] r'] eqn:Hrun.
  - exists e', r'. split; [reflexivity |].
    apply (roulette_reproduction_copies pair 2 [3] start_tape r' e');
      [reflexivity | reflexivity | reflexivity | lia | exact Hrun].
  - vm_compute in Hrun. discriminate Hrun.
Defined.

(** Eight draws on [trio]: index 2 is the best and index 1 the runner-up. *)
Lemma tournament_scan_top_two_witness :
  exists others,
    Permutation [1; 1; 0; 0; 2; 1; 1; 1] (2 :: 1 :: others) /\
    nth (Z.to_nat 1) (population_fitness trio) 0
      <= nth (Z.to_nat 2) (population_fitness trio) 0 /\
    Forall (fun p => nth (Z.to_nat p) (population_fitness trio) 0
                     <= nth (Z.to_nat 1) (population_fitness trio) 0) others.
Proof.
  apply (tournament_scan_top_two (population_fitness trio)
           [1; 1; 0; 0; 2; 1; 1; 1] 2 1).
  - repeat constructor; vm_compute; discriminate.
  - vm_compute. reflexivity.
Defined.

(** The run of [start]. *)
Lemma simulate_records_consistent_witness :
  exists result e' r',
    simulate start true start_tape = (Return (result, e'), r') /\
    records_consistent (fitness_function start) result.
Proof.
  destruct (simulate start true start_tape) as [[[result e'] | x] r'] eqn:Hrun.
  - exists result, e', r'. split; [reflexivity |].
    apply (simulate_records_consistent start true start_tape r' result e');
      [reflexivity | exact Hrun | |];
      vm_compute in Hrun; inversion Hrun; subst result;
      repeat constructor; discriminate.
  - vm_compute in Hrun. discriminate Hrun.
Defined.

(** A population size of 0. *)
Lemma simulate_empty_population_raises_witness :
  exists e,
    init (plain 0 0 20 3) start_tape = (Return e, start_tape) /\
    population e = [] /\
    simulate e true start_tape = (Raise ValueError, start_tape).
Proof.
  exists (mkEngine (plain 0 0 20 3) [] []).
  destruct (simulate_empty_population_raises (plain 0 0 20 3) true start_tape
              start_tape (mkEngine (plain 0 0 20 3) [] []))
    as (Hpop & _ & Hrun).
  - vm_compute. discriminate.
  - vm_compute. discriminate.
  - reflexivity.
  - split; [reflexivity | split; assumption].
Defined.

(** [start] has the fitness vector [6; 10]: its reproduction step returns. *)
Lemma reproduce_returns_iff_witness :
  exists e' r', reproduce (evaluate start) start_tape = (Return e', r').
Proof.
  apply (proj1 (reproduce_returns_iff start 3 6 [10] start_tape
                  ltac:(split; [reflexivity | repeat constructor])
                  ltac:(split; [intros _ r; reflexivity
                               | split; intros f Hf; discriminate Hf])
                  ltac:(intros Hv; discriminate Hv)
                  ltac:(intros _; lia)
                  eq_refl
                  ltac:(vm_compute; split; [discriminate | reflexivity]))).
  right. vm_compute. reflexivity.
Defined.

(** Two parents of five genes: the child takes its first gene from the
    first parent and its last two from the second. *)
Lemma breakpoint_keeps_last_two_genes_witness :
  exists head tail,
    ((head = [1; 2; 3; 4; 5] /\ tail = [6; 7; 8; 9; 10]) \/
     (head = [6; 7; 8; 9; 10] /\ tail = [1; 2; 3; 4; 5])) /\
    nth_error [1; 2; 8; 9; 10] 0 = nth_error head 0 /\
    forall i, (length [1; 2; 3; 4; 5] - 2 <= i)%nat ->
              nth_error [1; 2; 8; 9; 10] i = nth_error tail i.
Proof.
  apply (breakpoint_keeps_last_two_genes pair [1; 2; 3; 4; 5] [6; 7; 8; 9; 10]
           [1; 2; 8; 9; 10] start_tape (skip 2 start_tape)).
  - reflexivity.
  - reflexivity.
  - vm_compute. reflexivity.
Defined.

(** An offspring of [pair]. *)
Lemma offspring_genes_inherited_witness :
  length [1; 1; 0] = 3%nat /\
  forall i g, nth_error [1; 1; 0] i = Some g ->
              exists ind, In ind (population pair) /\ nth_error ind i = Some g.
Proof.
  apply (offspring_genes_inherited pair 3 5 0 start_tape (skip 7 start_tape)).
  - reflexivity.
  - reflexivity.
  - repeat constructor.
  - vm_compute. reflexivity.
Defined.

(** The run of [far] records its two generations and ends on the
    population of a third one, with the fitness vector of the second. *)
Lemma simulate_runs_max_iter_witness :
  exists result,
    simulate far true start_tape = (Return (result, far_end), skip 28 start_tape) /\
    generations_recorded result 2.
Proof.
  apply (simulate_runs_max_iter far true start_tape far_end (skip 28 start_tape)).
  - vm_compute. discriminate.
  - discriminate.
  - vm_compute. reflexivity.
  - intros j ej rj Hj Hgen.
    change (Z.to_nat (max_iter far)) with 2%nat in Hj.
    assert (Hcases : j = 0%nat \/ j = 1%nat) by lia.
    destruct Hcases; subst j; vm_compute in Hgen; inversion Hgen;
      vm_compute; reflexivity.
Defined.

(** A pass at rate one half over [1; 2; 3] with the draws 0, 1 - 2^-53
    and 5 * 2^-53: the second gene is kept. *)
Lemma mutation_pass_pointwise_witness :
  exists child',
    mutation half [1; 2; 3] (tape_of [0; 9007199254740991; 5]%N)
      = (Return child', skip 3 (tape_of [0; 9007199254740991; 5]%N)) /\
    length child' = 3%nat /\
    Forall2 (fun old new => new = old \/ new = old + 1) [1; 2; 3] child'.
Proof.
  apply (mutation_pass_pointwise half (fun g => g + 1) [1; 2; 3]
           (tape_of [0; 9007199254740991; 5]%N)).
  - reflexivity.
  - intros g r0. reflexivity.
Defined.

End Runs.
